(** * Statistical core of the random-number analysis tool (program.py)

    Shallow embedding of the three sample generators and of the numeric
    parts of [RandomnessTester], followed by the properties stated for
    them.

    Conventions of the embedding.
    - Python [int] is [Z]. A NumPy integer array holds [int64] values: the
      bounds of [np.random.randint], the wrap-around of [np.diff] and the
      cast of [.astype(int)] are written out.
    - A finite [float64] is the rational number it denotes; [fl64] rounds a
      rational to the nearest [float64], ties to even, and every float
      operation of the code is the exact operation followed by [fl64].
      Infinities and NaN are the other constructors of [npfloat]; the sign
      of a zero is not kept.
    - The ambient random sources ([random] and [np.random]) are an explicit
      state of type [Rng], threaded through every draw.
    - A Python exception is the [Raise] branch of [result].
    - The entropy of [entropy_test] goes through [np.log2]; it is modelled
      twice: as the real number that the expression denotes ([entropy]) and
      as the float64 computation ([entropy_float]), with [np.log2] taken as
      the correctly rounded logarithm. *)

From Stdlib Require Import ZArith QArith Qround Qminmax Qabs Qpower Qreduction.
From Stdlib Require Import Reals Lia Psatz List.
From stdpp Require Import base gmap.
Import ListNotations.

Local Open Scope Z_scope.

(** ** Exceptions *)

Inductive exn : Type :=
| ValueError
| ZeroDivisionError
| OverflowError.

Inductive result (A : Type) : Type :=
| Ok (a : A)
| Raise (e : exn).

Arguments Ok {A} a.
Arguments Raise {A} e.

#[export] Instance result_ret : MRet result := fun A a => Ok a.

#[export] Instance result_bind : MBind result := fun A B k r =>
  match r with
  | Ok a => k a
  | Raise e => Raise e
  end.

(** ** float64 *)

(** A float64: a finite value, an infinity or NaN. *)
Inductive npfloat : Type :=
| Fin (x : Q)
| PInf
| NInf
| NaN.

(** To the nearest integer, a half to the even neighbour. *)
Definition round_half_even (q : Q) : Z :=
  let f := Qfloor q in
  match (q - inject_Z f ?= 1 # 2)%Q with
  | Lt => f
  | Gt => f + 1
  | Eq => if Z.even f then f else f + 1
  end.

(** Truncation towards zero. *)
Definition truncate (q : Q) : Z :=
  if Qle_bool 0 q then Qfloor q else Qceiling q.

Definition two_pow (e : Z) : Q := (2 ^ e)%Q.

(** The binary exponent of a positive rational: [2 ^ e <= a < 2 ^ (e + 1)]. *)
Definition ilog2 (a : Q) : Z :=
  let e := Z.log2 (Qnum a) - Z.log2 (Zpos (Qden a)) in
  if Qle_bool (two_pow e) a then e else e - 1.

(** Half-way between the largest float64 and [2 ^ 1024]: from there on a
    value rounds to an infinity. *)
Definition float_max_Z : Z := 2 ^ 1024 - 2 ^ 970.
Definition float_max_bound : Q := inject_Z float_max_Z.

(** The multiple of [2 ^ u] nearest to [a]. *)
Definition round_to_ulp (a : Q) (u : Z) : Q :=
  (inject_Z (round_half_even (a / two_pow u)) * two_pow u)%Q.

(** The infinity with the sign of [x] ([x] is not zero). *)
Definition inf_of_sign (x : Q) : npfloat :=
  if Qle_bool 0 x then PInf else NInf.

(** Rounding to float64: 53 significant bits, exponents down to [-1022]
    with subnormals below, overflow to an infinity. *)
Definition round64 (q : Q) : npfloat :=
  if Qeq_bool q 0 then Fin 0
  else
    let a := Qabs q in
    if Qle_bool float_max_bound a then inf_of_sign q
    else
      let u := Z.max (ilog2 a) (-1022) - 52 in
      let r := Qred (round_to_ulp a u) in
      Fin (if Qle_bool 0 q then r else (- r)%Q).

Definition fl64 (q : Q) : npfloat := round64 (Qred q).

Definition fneg (a : npfloat) : npfloat :=
  match a with
  | Fin x => Fin (- x)
  | PInf => NInf
  | NInf => PInf
  | NaN => NaN
  end.

(** IEEE addition: [inf - inf] is NaN. *)
Definition fadd (a b : npfloat) : npfloat :=
  match a, b with
  | NaN, _ | _, NaN => NaN
  | Fin x, Fin y => fl64 (x + y)
  | PInf, NInf | NInf, PInf => NaN
  | PInf, _ | _, PInf => PInf
  | NInf, _ | _, NInf => NInf
  end.

Definition fsub (a b : npfloat) : npfloat := fadd a (fneg b).

(** IEEE multiplication: [0 * inf] is NaN. *)
Definition fmul (a b : npfloat) : npfloat :=
  match a, b with
  | NaN, _ | _, NaN => NaN
  | Fin x, Fin y => fl64 (x * y)
  | Fin x, PInf | PInf, Fin x =>
      if Qeq_bool x 0 then NaN else inf_of_sign x
  | Fin x, NInf | NInf, Fin x =>
      if Qeq_bool x 0 then NaN else fneg (inf_of_sign x)
  | PInf, PInf | NInf, NInf => PInf
  | PInf, NInf | NInf, PInf => NInf
  end.

(** IEEE division: [x / 0] is an infinity, [0 / 0] and [inf / inf] are NaN. *)
Definition fdiv (a b : npfloat) : npfloat :=
  match a, b with
  | NaN, _ | _, NaN => NaN
  | Fin x, Fin y =>
      if Qeq_bool y 0 then
        if Qeq_bool x 0 then NaN else inf_of_sign x
      else fl64 (x / y)
  | Fin _, (PInf | NInf) => Fin 0
  | PInf, Fin y => if Qle_bool 0 y then PInf else NInf
  | NInf, Fin y => if Qle_bool 0 y then NInf else PInf
  | (PInf | NInf), (PInf | NInf) => NaN
  end.

(** The correctly rounded square root of a positive float64: with [u] the
    exponent of the last bit of the root, the root is [m * 2 ^ u] for the
    integer [m] nearest to [sqrt (x / 2 ^ (2 * u))]. *)
Definition sqrt64 (x : Q) : Q :=
  let u := ilog2 x / 2 - 52 in
  let t := (x / two_pow (2 * u))%Q in
  let m0 := Z.sqrt (Qfloor t) in
  let h := (inject_Z m0 + (1 # 2))%Q in
  let m := match (t ?= h * h)%Q with
           | Lt => m0
           | Gt => m0 + 1
           | Eq => if Z.even m0 then m0 else m0 + 1
           end in
  Qred (inject_Z m * two_pow u).

(** [np.sqrt]: NaN on a negative argument. *)
Definition fsqrt (a : npfloat) : npfloat :=
  match a with
  | Fin x => if Qeq_bool x 0 then Fin 0
             else if Qle_bool 0 x then Fin (sqrt64 x) else NaN
  | PInf => PInf
  | NInf | NaN => NaN
  end.

(** [np.clip(a, lo, hi)]; NaN stays NaN. *)
Definition fclip (a : npfloat) (lo hi : Q) : npfloat :=
  match a with
  | Fin x => Fin (Qmin (Qmax x lo) hi)
  | PInf => Fin hi
  | NInf => Fin lo
  | NaN => NaN
  end.

(** An [int64] made a float64, as [np.array(..., dtype=float64)] does. *)
Definition float_of_Z (z : Z) : npfloat := fl64 (inject_Z z).

(** [float(n)] of a Python [int]: [OverflowError] beyond the float range. *)
Definition py_float (z : Z) : result Q :=
  match fl64 (inject_Z z) with
  | Fin x => Ok x
  | _ => Raise OverflowError
  end.

(** [a / b] on two Python [int]s: the correctly rounded quotient. *)
Definition py_truediv (a b : Z) : result Q :=
  if b =? 0 then Raise ZeroDivisionError
  else
    match fl64 (inject_Z a / inject_Z b) with
    | Fin x => Ok x
    | _ => Raise OverflowError
    end.

(** [a / b] on two Python [float]s: a zero divisor raises, an overflow
    gives an infinity. *)
Definition py_float_div (a b : npfloat) : result npfloat :=
  match b with
  | Fin y => if Qeq_bool y 0 then Raise ZeroDivisionError else Ok (fdiv a b)
  | _ => Ok (fdiv a b)
  end.

(** [int(x)] of a Python [float]. *)
Definition py_int (x : npfloat) : result Z :=
  match x with
  | Fin q => Ok (truncate q)
  | PInf | NInf => Raise OverflowError
  | NaN => Raise ValueError
  end.

(** ** int64 *)

Definition int64 (z : Z) : bool := (- 2 ^ 63 <=? z) && (z <? 2 ^ 63).

(** The value that an [int64] operation keeps of a mathematical result. *)
Definition wrap64 (z : Z) : Z := (z + 2 ^ 63) mod 2 ^ 64 - 2 ^ 63.

(** [.astype(int)] on a float64 array: truncation towards zero; a value
    that does not fit becomes the smallest [int64], as the conversion
    instruction of x86-64 has it. *)
Definition astype_int64 (q : Q) : Z :=
  let z := truncate q in
  if int64 z then z else - 2 ^ 63.

(** ** The ambient random source *)

(** What the generators use of [random] and [np.random]: one call each,
    with the range contract of the library. [raw] is one full-range word of
    the underlying generator (what C's [rand()] returns); [np_normal]
    returns a finite float64. *)
Class RandomSource (Rng : Type) : Type := {
  raw : Rng -> Z * Rng;
  randint : Z -> Z -> Rng -> Z * Rng;
  randint_range : forall a b s, a <= b -> a <= fst (randint a b s) <= b;
  np_randint : Z -> Z -> Rng -> Z * Rng;
  np_randint_range :
    forall lo hi s, lo < hi -> lo <= fst (np_randint lo hi s) < hi;
  np_normal : Q -> Q -> Rng -> Q * Rng
}.

(** [n] successive draws, left to right. *)
Fixpoint draws {Rng A : Type} (f : Rng -> A * Rng) (n : nat) (s : Rng)
  : list A * Rng :=
  match n with
  | O => ([], s)
  | S n' =>
      let (x, s1) := f s in
      let (xs, s2) := draws f n' s1 in
      (x :: xs, s2)
  end.

(** ** Sample generators *)

Section Generators.
Context {Rng : Type} `{RandomSource Rng}.

(** [[random.randint(0, N - 1) for _ in range(size)]], on Python [int]s.
    [randint] raises [ValueError] on an empty range; no draw is made when
    [size <= 0]. *)
Definition c_style_rand (N size : Z) (s : Rng) : result (list Z * Rng) :=
  if size <=? 0 then Ok ([], s)
  else if N - 1 <? 0 then Raise ValueError
  else Ok (draws (randint 0 (N - 1)) (Z.to_nat size) s).

(** [np.random.randint(0, N, size=size)], of dtype [int64]: a negative
    [size], an empty interval and a bound above [2 ^ 63] raise
    [ValueError]; an empty array is made without a draw. *)
Definition uniform_rand (N size : Z) (s : Rng) : result (list Z * Rng) :=
  if size <? 0 then Raise ValueError
  else if size =? 0 then Ok ([], s)
  else if (N <=? 0) || (2 ^ 63 <? N) then Raise ValueError
  else Ok (draws (np_randint 0 N) (Z.to_nat size) s).

(** [np.round] of a float64. *)
Definition np_round (q : Q) : Q := inject_Z (round_half_even q).

(** [np.clip(a, lo, hi)] is [minimum(maximum(a, lo), hi)]. *)
Definition np_clip (q lo hi : Q) : Q := Qmin (Qmax q lo) hi.

(** [np.clip(np.round(v), 0, hi).astype(int)] on one value, [hi] being
    the float64 that [N - 1] has become. *)
Definition clip_round (hi : Q) (v : Q) : Z :=
  astype_int64 (np_clip (np_round v) 0 hi).

(** [mean] and [std] are float quotients of Python [int]s;
    [np.random.normal(mean, std, size=size)] raises [ValueError] on a
    negative scale or a negative [size]; [np.clip] compares with [N - 1]
    as a float64. *)
Definition normal_rand (N size : Z) (s : Rng) : result (list Z * Rng) :=
  mean ← py_truediv (N - 1) 2;
  std ← py_truediv (N - 1) 6;
  if (size <? 0) || negb (Qle_bool 0 std) then Raise ValueError
  else
    let (values, s') := draws (np_normal mean std) (Z.to_nat size) s in
    hi ← py_float (N - 1);
    Ok (map (clip_round hi) values, s').

(** The generator as the radio button names it, [rand() % N]: a
    full-range draw reduced modulo [N]. *)
Definition modulo_uniform (N size : Z) (s : Rng) : list Z * Rng :=
  let (ws, s') := draws raw (Z.to_nat size) s in
  (map (fun w => w mod N) ws, s').

End Generators.

(** The enumerated choice of [run_test]. *)
Inductive GeneratorKind : Type :=
| ModuloUniform
| RangeUniform
| ClippedNormal.

Definition rand_func {Rng : Type} `{RandomSource Rng} (g : GeneratorKind)
  : Z -> Z -> Rng -> result (list Z * Rng) :=
  match g with
  | ModuloUniform => c_style_rand
  | RangeUniform => uniform_rand
  | ClippedNormal => normal_rand
  end.

(** The values of [N] on which a generator keeps its contract: any
    positive [N] for the Python integers of [c_style_rand], at most
    [2 ^ 63] for the [int64] of [uniform_rand], and at most [2 ^ 53 + 1]
    for [normal_rand], whose upper bound [N - 1] has to be a float64. *)
Definition generator_domain (g : GeneratorKind) (N : Z) : bool :=
  (0 <? N)
  && match g with
     | ModuloUniform => true
     | RangeUniform => N <=? 2 ^ 63
     | ClippedNormal => N <=? 2 ^ 53 + 1
     end.

(** ** A concrete random source

    A 31-bit linear congruential generator. [randint] scales the word into
    the interval, [np_randint] takes its high bits, [np_normal] spreads
    seventeen values around the mean, up to four standard deviations away,
    in float64 arithmetic. *)

Definition lcg_next (s : Z) : Z := (1103515245 * s + 12345) mod 2 ^ 31.

Definition lcg_randint (a b s : Z) : Z * Z :=
  let w := lcg_next s in (a + (w * (b - a + 1)) / 2 ^ 31, w).

Definition lcg_np_randint (lo hi s : Z) : Z * Z :=
  let w := lcg_next s in (lo + (w / 2 ^ 16) mod (hi - lo), w).

Definition lcg_np_normal (mean std : Q) (s : Z) : Q * Z :=
  let w := lcg_next s in
  let z := fl64 (inject_Z (w mod 17 - 8) / 2) in
  (match fadd (Fin mean) (fmul (Fin std) z) with
   | Fin x => x
   | _ => mean
   end, w).

#[export] Program Instance lcg_source : RandomSource Z := {|
  raw := fun s => (lcg_next s, lcg_next s);
  randint := lcg_randint;
  np_randint := lcg_np_randint;
  np_normal := lcg_np_normal
|}.
Next Obligation.
  intros a b s Hab. unfold lcg_randint, lcg_next. cbn [fst].
  set (w := (1103515245 * s + 12345) mod 2 ^ 31).
  assert (Hw : 0 <= w < 2 ^ 31) by (apply Z.mod_pos_bound; lia).
  assert (0 <= w * (b - a + 1) / 2 ^ 31 < b - a + 1); [|lia].
  split.
  - apply Z.div_pos; nia.
  - apply Z.div_lt_upper_bound; nia.
Qed.
Next Obligation.
  intros lo hi s Hlt. unfold lcg_np_randint. cbn [fst].
  pose proof (Z.mod_pos_bound (lcg_next s / 2 ^ 16) (hi - lo)). lia.
Qed.

(** ** Frequencies: [Counter], [observed], [expected] *)

(** [collections.Counter(samples)]: one pass, left to right. *)
Definition Counter (samples : list Z) : gmap Z nat :=
  foldl (fun m x => <[x := S (default O (m !! x))]> m) ∅ samples.

(** [freq.get(k, d)]. *)
Definition get (freq : gmap Z nat) (k : Z) (d : nat) : nat :=
  default d (freq !! k).

(** [range(N)]; empty when [N <= 0]. *)
Definition range (N : Z) : list Z := map Z.of_nat (seq 0 (Z.to_nat N)).

(** [[Counter(samples).get(i, 0) for i in range(N)]]. *)
Definition observed (N : Z) (samples : list Z) : list nat :=
  map (fun i => get (Counter samples) i O) (range N).

(** [np.full(N, len(samples) / N)]: the division raises on [N = 0]. The
    quotient is kept as the rational that the division denotes. *)
Definition expected (N : Z) (samples : list Z) : result (list Q) :=
  if N =? 0 then Raise ZeroDivisionError
  else if N <? 0 then Raise ValueError
  else Ok (repeat (inject_Z (Z.of_nat (length samples)) / inject_Z N)%Q
             (Z.to_nat N)).

(** The statistic of [stats.chisquare]: the sum of [(o - e)^2 / e]. *)
Fixpoint chi2_stat (obs : list nat) (exp : list Q) : Q :=
  match obs, exp with
  | o :: obs', e :: exp' =>
      (let d := inject_Z (Z.of_nat o) - e in d * d / e + chi2_stat obs' exp')%Q
  | _, _ => 0%Q
  end.

(** The chi-square part of [distribution_check]: the two arrays handed to
    [stats.chisquare] and the statistic they denote. The checks that
    [stats.chisquare] makes on its arguments and the Kolmogorov-Smirnov
    test that follows are not part of this definition. *)
Definition distribution_check (N : Z) (samples : list Z)
  : result (list nat * list Q * Q) :=
  let obs := observed N samples in
  exp ← expected N samples;
  Ok (obs, exp, chi2_stat obs exp).

(** ** Inter-occurrence intervals of [distribution_test] *)

(** [positions[val].append(idx)] on a [defaultdict(list)]; the dictionary
    keeps its keys in insertion order. *)
Fixpoint append_pos (positions : list (Z * list nat)) (val : Z) (idx : nat)
  : list (Z * list nat) :=
  match positions with
  | [] => [(val, [idx])]
  | (k, pos) :: rest =>
      if k =? val then (k, pos ++ [idx]) :: rest
      else (k, pos) :: append_pos rest val idx
  end.

(** The loop over [enumerate(samples)], started at index [idx]. *)
Fixpoint fill_positions (positions : list (Z * list nat)) (idx : nat)
  (samples : list Z) : list (Z * list nat) :=
  match samples with
  | [] => positions
  | val :: rest => fill_positions (append_pos positions val idx) (S idx) rest
  end.

Definition build_positions (samples : list Z) : list (Z * list nat) :=
  fill_positions [] O samples.

(** [np.diff]: successive differences, empty on fewer than two elements.
    These are the mathematical differences: what [np.diff] computes when
    none overflows, as on the indices of [positions]. *)
Fixpoint np_diff (a : list Z) : list Z :=
  match a with
  | x :: (y :: _) as t => (y - x) :: np_diff t
  | _ => []
  end.

(** [np.concatenate] raises [ValueError] on an empty list of arrays. *)
Definition np_concatenate (arrays : list (list Z)) : result (list Z) :=
  match arrays with
  | [] => Raise ValueError
  | _ => Ok (concat arrays)
  end.

(** [np.concatenate([np.diff(np.array(pos)) for pos in positions.values()])]. *)
Definition intervals (samples : list Z) : result (list Z) :=
  np_concatenate
    (map (fun p => np_diff (map Z.of_nat (snd p))) (build_positions samples)).

(** ** Run count of [randomness_test] *)

(** [np.diff] on an [int64] array: each difference wraps around. *)
Fixpoint np_diff_int64 (a : list Z) : list Z :=
  match a with
  | x :: (y :: _) as t => wrap64 (y - x) :: np_diff_int64 t
  | _ => []
  end.

(** No difference of two neighbours leaves [int64]. *)
Definition no_overflow (samples : list Z) : bool :=
  forallb int64 (np_diff samples).

(** [np.diff(np.sign(delta)) != 0], with [delta = np.diff(samples_array)]. *)
Definition trend_changes (samples : list Z) : list bool :=
  map (fun d => negb (d =? 0))
      (np_diff_int64 (map Z.sgn (np_diff_int64 samples))).

(** [np.sum] of a boolean array. *)
Definition np_sum_bool (bs : list bool) : Z :=
  Z.of_nat (length (List.filter (fun b : bool => b) bs)).

(** [runs = np.sum(trend_changes) + 1]. *)
Definition run_count (samples : list Z) : Z :=
  np_sum_bool (trend_changes samples) + 1.

(** The run count in the words of the specification: the number of places
    where two consecutive signs of the (mathematical) first differences
    differ, plus one. *)
Fixpoint sign_changes (signs : list Z) : nat :=
  match signs with
  | a :: (b :: _) as t =>
      Nat.add (if Z.eqb a b then O else S O) (sign_changes t)
  | _ => O
  end.

Definition run_count_spec (samples : list Z) : Z :=
  Z.of_nat (sign_changes (map Z.sgn (np_diff samples))) + 1.

(** Each element is smaller than the next. *)
Fixpoint strictly_increasing (samples : list Z) : bool :=
  match samples with
  | x :: (y :: _) as t => (x <? y) && strictly_increasing t
  | _ => true
  end.



(** ** Lag-1 autocorrelation of [randomness_test] *)

(** Summation from left to right, starting from [res]. *)
Definition seq_add (res : npfloat) (a : list npfloat) : npfloat :=
  fold_left fadd a res.

(** One round of the unrolled loop: the eight accumulators take the next
    eight elements. *)
Fixpoint add_block (r blk : list npfloat) : list npfloat :=
  match r, blk with
  | x :: r', y :: blk' => fadd x y :: add_block r' blk'
  | _, _ => r
  end.

Fixpoint unrolled (r a : list npfloat) (blocks : nat)
  : list npfloat * list npfloat :=
  match blocks with
  | O => (r, a)
  | S b => unrolled (add_block r (firstn 8 a)) (skipn 8 a) b
  end.

Definition combine8 (r : list npfloat) : npfloat :=
  match r with
  | [r0; r1; r2; r3; r4; r5; r6; r7] =>
      fadd (fadd (fadd r0 r1) (fadd r2 r3)) (fadd (fadd r4 r5) (fadd r6 r7))
  | _ => NaN
  end.

(** NumPy's pairwise summation of a contiguous row: fewer than eight
    elements are added from left to right; up to 128 elements go through
    eight accumulators, combined as a tree, and the remaining elements are
    added one by one; a longer row is split in two, at a multiple of
    eight. [fuel] bounds the depth of the splitting. *)
Fixpoint pairwise_sum (fuel : nat) (a : list npfloat) : npfloat :=
  let n := length a in
  if (n <? 8)%nat then seq_add (Fin 0) a
  else if (n <=? 128)%nat then
    let '(r, rest) := unrolled (firstn 8 a) (skipn 8 a) (n / 8 - 1) in
    seq_add (combine8 r) rest
  else
    match fuel with
    | O => NaN
    | S f =>
        let n2 := (n / 2 - (n / 2) mod 8)%nat in
        fadd (pairwise_sum f (firstn n2 a)) (pairwise_sum f (skipn n2 a))
    end.

(** [np.sum] of a float64 row. *)
Definition np_sum (a : list npfloat) : npfloat := pairwise_sum (length a) a.

(** [X.mean(axis=1)] on one row; NaN on an empty row. *)
Definition row_mean (x : list npfloat) : npfloat :=
  fdiv (np_sum x) (float_of_Z (Z.of_nat (length x))).

(** [X -= avg[:, None]] on one row. *)
Definition deviations (x : list npfloat) : list npfloat :=
  let avg := row_mean x in map (fun a => fsub a avg) x.

(** One entry of [dot(X, X.T)], the products added from left to right.
    (The BLAS routine behind [np.dot] may add them in another order,
    which shows only when a partial sum is rounded.) *)
Fixpoint dot_from (acc : npfloat) (x y : list npfloat) : npfloat :=
  match x, y with
  | a :: x', b :: y' => dot_from (fadd acc (fmul a b)) x' y'
  | _, _ => acc
  end.

Definition dot (x y : list npfloat) : npfloat := dot_from (Fin 0) x y.

(** [fact = X.shape[1] - ddof] with [ddof = 1], replaced by [0.0] when it is
    not positive. *)
Definition cov_fact (x : list npfloat) : npfloat :=
  let fact := Z.of_nat (length x) - 1 in
  if fact <=? 0 then Fin 0 else float_of_Z fact.

(** One entry of [np.cov]: [dot(X, X.T) * (1 / fact)]. *)
Definition cov_entry (x y : list npfloat) : npfloat :=
  fmul (dot (deviations x) (deviations y)) (fdiv (Fin 1) (cov_fact x)).

(** [np.corrcoef(x, y)[0, 1]] for two rows of one length: the covariance
    divided by the two standard deviations in turn, then clipped. *)
Definition corrcoef01 (x y : list npfloat) : npfloat :=
  let c01 := cov_entry x y in
  let stddev0 := fsqrt (cov_entry x x) in
  let stddev1 := fsqrt (cov_entry y y) in
  fclip (fdiv (fdiv c01 stddev0) stddev1) (-1) 1.

(** [np.corrcoef(samples[:-lag], samples[lag:])[0, 1]] with [lag = 1]. *)
Definition lag1_autocorr (samples : list Z) : npfloat :=
  corrcoef01 (map float_of_Z (removelast samples))
             (map float_of_Z (tail samples)).

(** [ax.acorr(x, maxlags=maxlags)]: Matplotlib correlates the sample with
    itself ([np.correlate] rejects an empty array) and then refuses a
    [maxlags] that is not positive and below the sample length. *)
Definition acorr (x : list Z) (maxlags : Z) : result unit :=
  let Nx := Z.of_nat (length x) in
  if Nx =? 0 then Raise ValueError
  else if (Nx <=? maxlags) || (maxlags <? 1) then Raise ValueError
  else Ok tt.

(** [randomness_test]: the coefficient and the run count that the result
    text reports, returned after the autocorrelation plot has been drawn. *)
Definition randomness_test (samples : list Z) : result (npfloat * Z) :=
  let acf := lag1_autocorr samples in
  let runs := run_count samples in
  _ ← acorr samples 10;
  Ok (acf, runs).

(** ** [performance_test] *)

(** [start_time] and [end_time] are the two readings of [time.time()],
    both float64. The rate is [int(self.sample_size / duration)]: the
    sample size is made a float, the float division raises
    [ZeroDivisionError] on a zero [duration], and [int] raises on an
    infinite quotient. *)
Definition performance_test {Rng : Type} `{RandomSource Rng}
  (g : GeneratorKind) (N sample_size : Z) (s : Rng) (start_time end_time : Q)
  : result (Z * Rng) :=
  '(test_samples, s') ← rand_func g N sample_size s;
  let duration := fsub (Fin end_time) (Fin start_time) in
  size ← py_float sample_size;
  rate ← py_float_div (Fin size) duration;
  speed ← py_int rate;
  Ok (speed, s').

(** ** [entropy_test], in exact arithmetic

    The value that the expression of [entropy_test] denotes when every
    operation is exact: the Shannon entropy of the relative frequencies. *)

Definition Rsum (x : list R) : R := fold_right Rplus 0%R x.

Definition log2 (x : R) : R := (ln x / ln 2)%R.

(** [[freq.get(i, 0) / len(samples) for i in range(N)]]. *)
Definition probabilities (N : Z) (samples : list Z) : list R :=
  map (fun i => (INR (get (Counter samples) i O) / INR (length samples))%R)
      (range N).

(** The mask [probabilities > 0]. *)
Definition is_positive (p : R) : bool :=
  if Rlt_dec 0 p then true else false.

(** [-np.sum(probabilities * np.log2(probabilities))] over the positive
    entries. *)
Definition entropy (N : Z) (samples : list Z) : R :=
  (- Rsum (map (fun p => p * log2 p)
             (List.filter is_positive (probabilities N samples))))%R.

(** The reported maximum, [np.log2(N)]. *)
Definition max_entropy (N : Z) : R := log2 (IZR N).

(** [entropy_test]: the division by [len(samples)] raises on an empty
    sample as soon as [range(N)] has an element. *)
Definition entropy_test (N : Z) (samples : list Z) : result (R * R) :=
  if (0 <? N) && (Z.of_nat (length samples) =? 0)
  then Raise ZeroDivisionError
  else Ok (entropy N samples, max_entropy N).

(** ** [entropy_test], in float64 *)

Definition log2_precision : Z := 192.
Definition log2_bits : nat := 128.

(** The first [k] binary digits of [log2 y] for [1 < y < 2], by repeated
    squaring: [y * y >= 2] gives the digit [1] and goes on with
    [y * y / 2], otherwise the digit is [0] and [y * y] goes on. [y] is
    kept between two fixed-point bounds [yl] and [yh] of [log2_precision]
    fractional bits, rounded outwards; the result is [None] when the
    bounds do not agree on a digit. *)
Fixpoint log2_fraction (k : nat) (yl yh acc : Z) : option Z :=
  match k with
  | O => Some acc
  | S k' =>
      let sl := Z.shiftr (yl * yl) log2_precision in
      let sh := Z.shiftr (yh * yh) log2_precision + 1 in
      if negb (Z.shiftr sl (log2_precision + 1) =? 0)
      then log2_fraction k' (Z.shiftr sl 1) (Z.shiftr sh 1 + 1) (2 * acc + 1)
      else if Z.shiftr sh (log2_precision + 1) =? 0
           then log2_fraction k' sl sh (2 * acc)
           else None
  end.

Definition npfloat_eqb (a b : npfloat) : bool :=
  match a, b with
  | Fin x, Fin y => Qeq_bool x y
  | PInf, PInf | NInf, NInf => true
  | _, _ => false
  end.

(** The correctly rounded base-2 logarithm of a positive float64: the
    exponent plus the digits of the logarithm of the significand, as many
    of them as it takes for both ends of the enclosure to round to the
    same float64 (NaN stands for an enclosure that does not decide). *)
Definition log2_64 (x : Q) : npfloat :=
  let e := ilog2 x in
  let y := (x / two_pow e)%Q in
  if Qeq_bool y 1 then fl64 (inject_Z e)
  else
    let scaled := (y * two_pow log2_precision)%Q in
    match log2_fraction log2_bits (Qfloor scaled) (Qceiling scaled) 0 with
    | Some acc =>
        let scale := inject_Z (2 ^ Z.of_nat log2_bits) in
        let lo := fl64 (inject_Z e + inject_Z acc / scale) in
        let hi := fl64 (inject_Z e + inject_Z (acc + 1) / scale) in
        if npfloat_eqb lo hi then lo else NaN
    | None => NaN
    end.

(** [np.log2], taken as correctly rounded: [-inf] at zero, NaN below. *)
Definition np_log2 (a : npfloat) : npfloat :=
  match a with
  | Fin x => if Qeq_bool x 0 then NInf
             else if Qle_bool 0 x then log2_64 x else NaN
  | PInf => PInf
  | NInf | NaN => NaN
  end.

(** A list comprehension whose element expression may raise. *)
Fixpoint map_result {A B : Type} (f : A -> result B) (l : list A)
  : result (list B) :=
  match l with
  | [] => Ok []
  | a :: l' => b ← f a; bs ← map_result f l'; Ok (b :: bs)
  end.

(** [[freq.get(i, 0) / len(samples) for i in range(N)]], each quotient a
    float division of two Python [int]s. *)
Definition probabilities_float (N : Z) (samples : list Z)
  : result (list Q) :=
  map_result
    (fun i => py_truediv (Z.of_nat (get (Counter samples) i O))
                (Z.of_nat (length samples)))
    (range N).

(** [-np.sum(probabilities * np.log2(probabilities))] after the mask
    [probabilities > 0]. *)
Definition entropy_float (ps : list Q) : npfloat :=
  let positive := List.filter (fun p => negb (Qle_bool p 0)) ps in
  fneg (np_sum (map (fun p => fmul (Fin p) (np_log2 (Fin p))) positive)).

(** The two numbers that [entropy_test] formats: the entropy and
    [np.log2(self.N)], [N] being an [int64]. *)
Definition entropy_test_float (N : Z) (samples : list Z)
  : result (npfloat * npfloat) :=
  ps ← probabilities_float N samples;
  Ok (entropy_float ps, np_log2 (float_of_Z N)).

(** ** The loop invariant of [distribution_test]

    What the loop over [enumerate(samples)] keeps true of an entry of
    [positions]: its indices are there, increasing, and below the current
    index. *)
Definition entry_ok (idx : nat) (p : Z * list nat) : Prop :=
  snd p <> []
  /\ strictly_increasing (map Z.of_nat (snd p)) = true
  /\ List.Forall (fun i => (i < idx)%nat) (snd p).

(** ** The frequency dictionary of [distribution_test] *)

(** [{k: freq.get(k, 0) for k in range(N)}], built over [Counter(samples)]. *)
Definition freq_dict (N : Z) (samples : list Z) : gmap Z nat :=
  list_to_map (map (fun k => (k, get (Counter samples) k O)) (range N)).

(** ** [RandomnessTester.__init__] and [run_test] *)

Record RandomnessTester : Type := {
  tester_kind : GeneratorKind;
  tester_N : Z;
  tester_sample_size : Z;
  tester_samples : list Z
}.

(** [RandomnessTester(rand_func, N, sample_size)]: the sample is drawn in
    the constructor. *)
Definition new_tester {Rng : Type} `{RandomSource Rng}
  (g : GeneratorKind) (N sample_size : Z) (s : Rng)
  : result (RandomnessTester * Rng) :=
  '(samples, s') ← rand_func g N sample_size s;
  Ok ({| tester_kind := g; tester_N := N;
         tester_sample_size := sample_size; tester_samples := samples |}, s').

(** What [run_test] ends in: the input-error dialogue, a tester handed to
    the worker thread, or an exception of the constructor. *)
Inductive run_outcome : Type :=
| InputError
| TesterReady (t : RandomnessTester)
| ConstructorRaised (e : exn).

(** [run_test]: the two entries are [None] when [int] cannot parse them;
    [choice] is the generator of the selected radio button. *)
Definition run_test {Rng : Type} `{RandomSource Rng}
  (n_entry sample_entry : option Z) (choice : GeneratorKind) (s : Rng)
  : run_outcome * Rng :=
  match n_entry, sample_entry with
  | Some N, Some sample_size =>
      if (N <=? 0) || (sample_size <=? 0) then (InputError, s)
      else
        match new_tester choice N sample_size s with
        | Ok (t, s') => (TesterReady t, s')
        | Raise e => (ConstructorRaised e, s)
        end
  | _, _ => (InputError, s)
  end.

(** * Properties *)

(** ** Generators *)

Section DrawLemmas.
Context {Rng A : Type} (f : Rng -> A * Rng).

Lemma draws_length (n : nat) (s : Rng) : length (fst (draws f n s)) = n.
Proof.
  revert s. induction n as [|n IH]; intros s; cbn; [reflexivity|].
  destruct (f s) as [x s1]. specialize (IH s1).
  destruct (draws f n s1) as [xs s2]. cbn in *. congruence.
Qed.

Lemma draws_Forall (P : A -> Prop) (n : nat) (s : Rng) :
  (forall s0, P (fst (f s0))) -> Forall P (fst (draws f n s)).
Proof.
  intros HP. revert s. induction n as [|n IH]; intros s; cbn.
  - constructor.
  - pose proof (HP s) as Hx. destruct (f s) as [x s1]. specialize (IH s1).
    destruct (draws f n s1) as [xs s2]. cbn in *. constructor; assumption.
Qed.

(** The [i]-th value is the draw made on the state left by the [i]
    draws before it. *)
Lemma draws_nth (n i : nat) (s : Rng) (d : A) :
  (i < n)%nat ->
  nth i (fst (draws f n s)) d = fst (f (Nat.iter i (fun t => snd (f t)) s)).
Proof.
  revert i s. induction n as [|n IH]; intros i s Hi; [lia|].
  cbn [draws]. destruct (f s) as [x s1] eqn:Efs.
  destruct (draws f n s1) as [xs s2] eqn:Ed. cbn [fst].
  destruct i as [|i].
  - cbn. rewrite Efs. reflexivity.
  - cbn [nth]. specialize (IH i s1 ltac:(lia)). rewrite Ed in IH.
    cbn [fst] in IH. rewrite IH. f_equal. f_equal.
    rewrite Nat.iter_succ_r. rewrite Efs. reflexivity.
Qed.
End DrawLemmas.

Lemma np_clip_bounds (q : Q) (lo hi : Q) :
  (lo <= hi)%Q -> (lo <= np_clip q lo hi <= hi)%Q.
Proof.
  intros Hle. unfold np_clip. split.
  - apply Q.min_glb; [apply Q.le_max_r | exact Hle].
  - apply Q.le_min_r.
Qed.

(** ** float64 arithmetic *)


Lemma Qred_inject_Z (z : Z) : Qred (inject_Z z) = inject_Z z.
Proof.
  unfold Qred, inject_Z.
  pose proof (Z.ggcd_gcd z 1) as Hg.
  pose proof (Z.ggcd_correct_divisors z 1) as Hd.
  destruct (Z.ggcd z 1) as [g [aa bb]]. cbn [fst snd] in *.
  rewrite Z.gcd_1_r in Hg. subst g. destruct Hd as [Ha Hb].
  f_equal; [lia|]. replace bb with 1 by lia. reflexivity.
Qed.

Lemma round_half_even_Z (q : Q) (k : Z) :
  (q == inject_Z k)%Q -> round_half_even q = k.
Proof.
  intros Hq. unfold round_half_even.
  rewrite (Qfloor_comp _ _ Hq), Qfloor_Z.
  assert (E : (q - inject_Z k ?= 1 # 2)%Q = Lt).
  { rewrite <- Qlt_alt. rewrite Hq. unfold Qminus. rewrite Qplus_opp_r.
    reflexivity. }
  rewrite E. reflexivity.
Qed.

Lemma two_pow_pos (u : Z) : (0 < two_pow u)%Q.
Proof. unfold two_pow. apply Qpower_0_lt. reflexivity. Qed.

Lemma two_pow_nonneg_exp (e : Z) :
  0 <= e -> (two_pow e == inject_Z (2 ^ e))%Q.
Proof.
  intros He. unfold two_pow. rewrite (Zpower_Qpower 2 e He). reflexivity.
Qed.

Lemma two_pow_nonpos_exp (u : Z) :
  u <= 0 -> (two_pow u == / inject_Z (2 ^ (- u)))%Q.
Proof.
  intros Hu. unfold two_pow.
  replace u with (- - u) at 1 by lia.
  rewrite Qpower_opp. rewrite <- (Zpower_Qpower 2 (- u)) by lia. reflexivity.
Qed.

(** Rounding at an ulp that divides the value leaves it unchanged. *)
Lemma round_to_ulp_exact (a : Q) (u k : Z) :
  (a / two_pow u == inject_Z k)%Q -> (round_to_ulp a u == a)%Q.
Proof.
  intros Hk. unfold round_to_ulp.
  rewrite (round_half_even_Z _ _ Hk), <- Hk.
  pose proof (two_pow_pos u) as Hpos.
  field. intros E. rewrite E in Hpos. discriminate Hpos.
Qed.

Lemma float_max_big : 2 ^ 53 < float_max_Z.
Proof. reflexivity. Qed.

Lemma Qle_bool_inject_Z (a b : Z) :
  Qle_bool (inject_Z a) (inject_Z b) = (a <=? b).
Proof. unfold Qle_bool, inject_Z. cbn [Qnum Qden]. rewrite !Z.mul_1_r. reflexivity. Qed.

Lemma Qeq_bool_inject_Z (a b : Z) :
  Qeq_bool (inject_Z a) (inject_Z b) = (a =? b).
Proof.
  unfold Qeq_bool, inject_Z. cbn [Qnum Qden]. rewrite !Z.mul_1_r. reflexivity.
Qed.

Lemma ilog2_inject_Z (m : Z) : 0 < m -> ilog2 (inject_Z m) = Z.log2 m.
Proof.
  intros Hm. unfold ilog2. cbn [inject_Z Qnum Qden].
  change (Z.log2 1) with 0. rewrite Z.sub_0_r.
  assert (E : Qle_bool (two_pow (Z.log2 m)) (inject_Z m) = true).
  { apply Qle_bool_iff. rewrite two_pow_nonneg_exp by apply Z.log2_nonneg.
    rewrite <- Zle_Qle. apply Z.log2_spec, Hm. }
  rewrite E. reflexivity.
Qed.

Lemma Qabs_inject_Z (z : Z) : Qabs (inject_Z z) = inject_Z (Z.abs z).
Proof. reflexivity. Qed.

(** A positive integer below [2 ^ 53] is a float64. *)
Lemma round64_pos_int (m : Z) :
  0 < m < 2 ^ 53 -> round64 (inject_Z m) = Fin (inject_Z m).
Proof.
  intros [Hpos Hlt]. unfold round64.
  change 0%Q with (inject_Z 0). unfold float_max_bound.
  rewrite Qeq_bool_inject_Z, Qabs_inject_Z, !Qle_bool_inject_Z.
  pose proof float_max_big as Hbig.
  destruct (Z.eqb_spec m 0) as [E|_]; [lia|].
  rewrite Z.abs_eq by lia.
  destruct (Z.leb_spec float_max_Z m) as [E|_]; [lia|].
  destruct (Z.leb_spec 0 m) as [_|E]; [|lia].
  rewrite ilog2_inject_Z by exact Hpos.
  assert (Hlog : 0 <= Z.log2 m < 53).
  { split; [apply Z.log2_nonneg|]. apply Z.log2_lt_pow2; lia. }
  rewrite Z.max_l by lia.
  f_equal. rewrite <- (Qred_inject_Z m) at 2. apply Qred_complete.
  apply (round_to_ulp_exact _ _ (m * 2 ^ (- (Z.log2 m - 52)))).
  rewrite two_pow_nonpos_exp by lia.
  rewrite inject_Z_mult. field.
  change 0%Q with (inject_Z 0). rewrite inject_Z_injective.
  pose proof (Z.pow_pos_nonneg 2 (- (Z.log2 m - 52))). lia.
Qed.

Lemma round64_int (z : Z) :
  Z.abs z <= 2 ^ 53 -> round64 (inject_Z z) = Fin (inject_Z z).
Proof.
  intros Hz.
  destruct (Z.eq_dec z 0) as [->|Hne]; [reflexivity|].
  destruct (Z.eq_dec z (2 ^ 53)) as [->|Hhi]; [vm_compute; reflexivity|].
  destruct (Z.eq_dec z (- 2 ^ 53)) as [->|Hlo]; [vm_compute; reflexivity|].
  destruct (Z_lt_le_dec 0 z) as [Hpos|Hneg].
  - apply round64_pos_int. lia.
  - pose proof (round64_pos_int (- z) ltac:(lia)) as Hr.
    unfold round64 in *. change 0%Q with (inject_Z 0) in *.
    unfold float_max_bound in *.
    rewrite Qeq_bool_inject_Z, Qabs_inject_Z, !Qle_bool_inject_Z in *.
    rewrite Z.abs_opp in Hr.
    destruct (Z.eqb_spec z 0) as [E|_]; [lia|].
    destruct (Z.eqb_spec (- z) 0) as [E|_]; [lia|].
    destruct (Z.leb_spec float_max_Z (Z.abs z)) as [E|_];
      [pose proof float_max_big; lia|].
    destruct (Z.leb_spec 0 z) as [E|_]; [lia|].
    destruct (Z.leb_spec 0 (- z)) as [_|E]; [|lia].
    set (r := Qred _) in *. injection Hr as ->.
    unfold inject_Z, Qopp. cbn [Qnum Qden]. rewrite Z.opp_involutive.
    reflexivity.
Qed.

(** An integer of at most 53 bits is converted exactly. *)
Lemma fl64_int (q : Q) (z : Z) :
  (q == inject_Z z)%Q -> Z.abs z <= 2 ^ 53 -> fl64 q = Fin (inject_Z z).
Proof.
  intros Hq Hz. unfold fl64. rewrite (Qred_complete _ _ Hq), Qred_inject_Z.
  apply round64_int, Hz.
Qed.

Lemma fl64_not_nan (q : Q) : fl64 q <> NaN.
Proof.
  unfold fl64, round64, inf_of_sign.
  destruct (Qeq_bool (Qred q) 0); [discriminate|].
  destruct (Qle_bool float_max_bound (Qabs (Qred q)));
    [destruct (Qle_bool 0 (Qred q)); discriminate | discriminate].
Qed.

Lemma round_half_even_nonneg (q : Q) : (0 <= q)%Q -> 0 <= round_half_even q.
Proof.
  intros Hq. unfold round_half_even.
  assert (Hf : 0 <= Qfloor q).
  { change 0 with (Qfloor (inject_Z 0)). apply Qfloor_resp_le. exact Hq. }
  destruct (q - inject_Z (Qfloor q) ?= 1 # 2)%Q;
    [destruct (Z.even (Qfloor q))| |]; lia.
Qed.

(** A non-negative rational below the overflow threshold rounds to a
    non-negative float64. *)
Lemma fl64_nonneg (q : Q) :
  (0 <= q)%Q -> (q < float_max_bound)%Q ->
  exists r : Q, fl64 q = Fin r /\ (0 <= r)%Q.
Proof.
  intros H0 Hmax. unfold fl64, round64.
  assert (Hred : (Qred q == q)%Q) by apply Qred_correct.
  destruct (Qeq_bool (Qred q) 0); [exists 0%Q; split; [reflexivity | apply Qle_refl]|].
  assert (Ha : (Qabs (Qred q) == q)%Q).
  { rewrite Hred. apply Qabs_pos, H0. }
  assert (E1 : Qle_bool float_max_bound (Qabs (Qred q)) = false).
  { destruct (Qle_bool float_max_bound (Qabs (Qred q))) eqn:E; [|reflexivity].
    apply Qle_bool_iff in E. rewrite Ha in E.
    exfalso. exact (Qlt_not_le _ _ Hmax E). }
  rewrite E1.
  assert (E2 : Qle_bool 0 (Qred q) = true).
  { apply Qle_bool_iff. rewrite Hred. exact H0. }
  rewrite E2. eexists. split; [reflexivity|].
  rewrite Qred_correct. unfold round_to_ulp.
  apply Qmult_le_0_compat.
  - change 0%Q with (inject_Z 0). rewrite <- Zle_Qle.
    apply round_half_even_nonneg.
    apply Qle_shift_div_l; [apply two_pow_pos|].
    rewrite Qmult_0_l, Ha. exact H0.
  - apply Qlt_le_weak, two_pow_pos.
Qed.

(** The rounding and the square root on values whose float64 is known:
    [0.1] and [1/3], the ties at [2 ^ 53 + 1] and [2 ^ 53 + 3], the
    overflow threshold, the subnormal range, and three square roots. *)
Example fl64_samples :
  fl64 (1 # 10) = Fin (3602879701896397 # 36028797018963968)
  /\ fl64 (1 # 3) = Fin (6004799503160661 # 18014398509481984)
  /\ fl64 (inject_Z (2 ^ 53 + 1)) = Fin (inject_Z (2 ^ 53))
  /\ fl64 (inject_Z (2 ^ 53 + 3)) = Fin (inject_Z (2 ^ 53 + 4))
  /\ fl64 (inject_Z (2 ^ 1024 - 2 ^ 970 - 1))
     = Fin (inject_Z (2 ^ 1024 - 2 ^ 971))
  /\ fl64 (inject_Z (2 ^ 1024 - 2 ^ 970)) = PInf
  /\ fl64 (- inject_Z (2 ^ 1024)) = NInf
  /\ fl64 (3 # 2 ^ 1076) = Fin (1 # 2 ^ 1074)
  /\ fl64 (1 # 2 ^ 1075) = Fin 0
  /\ fsqrt (Fin 2) = Fin (6369051672525773 # 4503599627370496)
  /\ fsqrt (Fin (5 # 2)) = Fin (7120816245988179 # 4503599627370496)
  /\ fsqrt (Fin (253 # 2 ^ 1071)) = Fin (6331623033015923 # 2 ^ 584).
Proof. repeat split; vm_compute; reflexivity. Qed.

(** ** Sums of integers that stay below [2 ^ 53] are exact *)

Lemma fadd_int (a b : Z) :
  Z.abs (a + b) <= 2 ^ 53 ->
  fadd (Fin (inject_Z a)) (Fin (inject_Z b)) = Fin (inject_Z (a + b)).
Proof.
  intros Hab. cbn [fadd]. apply fl64_int; [|exact Hab].
  rewrite inject_Z_plus. reflexivity.
Qed.

Lemma fl64_zero (q : Q) : (q == 0)%Q -> fl64 q = Fin 0.
Proof. intros Hq. unfold fl64. rewrite (Qred_complete _ _ Hq). reflexivity. Qed.

Lemma fsub_self (x : Q) : fsub (Fin x) (Fin x) = Fin 0.
Proof. cbn [fsub fneg fadd]. apply fl64_zero. apply Qplus_opp_r. Qed.

Lemma seq_add_repeat (v : Z) (n k : nat) :
  Z.of_nat (k + n) * Z.abs v <= 2 ^ 53 ->
  seq_add (Fin (inject_Z (Z.of_nat k * v))) (repeat (Fin (inject_Z v)) n)
  = Fin (inject_Z (Z.of_nat (k + n) * v)).
Proof.
  revert k. induction n as [|n IH]; intros k Hb.
  - rewrite Nat.add_0_r. reflexivity.
  - cbn [repeat seq_add fold_left]. rewrite fadd_int by nia.
    replace (Z.of_nat k * v + v) with (Z.of_nat (S k) * v) by lia.
    fold (seq_add (Fin (inject_Z (Z.of_nat (S k) * v)))
            (repeat (Fin (inject_Z v)) n)).
    rewrite IH by (replace (S k + n)%nat with (k + S n)%nat by lia; exact Hb).
    do 2 f_equal. lia.
Qed.

Lemma add_block_repeat (a b : npfloat) (m : nat) :
  add_block (repeat a m) (repeat b m) = repeat (fadd a b) m.
Proof. induction m as [|m IH]; [reflexivity|]. cbn. rewrite IH. reflexivity. Qed.

Lemma firstn_repeat_le {A : Type} (c : A) (m n : nat) :
  (m <= n)%nat -> firstn m (repeat c n) = repeat c m.
Proof.
  revert n. induction m as [|m IH]; intros n Hmn; [reflexivity|].
  destruct n as [|n]; [lia|]. cbn. rewrite IH by lia. reflexivity.
Qed.

Lemma skipn_repeat {A : Type} (c : A) (m n : nat) :
  skipn m (repeat c n) = repeat c (n - m).
Proof.
  revert n. induction m as [|m IH]; intros n.
  - rewrite Nat.sub_0_r. reflexivity.
  - destruct n as [|n]; [reflexivity|]. cbn. apply IH.
Qed.

Lemma unrolled_repeat (v : Z) (b j n : nat) :
  (8 * b <= n)%nat ->
  Z.of_nat (j + b) * Z.abs v <= 2 ^ 53 ->
  unrolled (repeat (Fin (inject_Z (Z.of_nat j * v))) 8)
    (repeat (Fin (inject_Z v)) n) b
  = (repeat (Fin (inject_Z (Z.of_nat (j + b) * v))) 8,
     repeat (Fin (inject_Z v)) (n - 8 * b)).
Proof.
  revert j n. induction b as [|b IH]; intros j n Hn Hb.
  - rewrite Nat.add_0_r, Nat.sub_0_r. reflexivity.
  - cbn [unrolled]. rewrite firstn_repeat_le, skipn_repeat by lia.
    rewrite add_block_repeat, fadd_int by nia.
    replace (Z.of_nat j * v + v) with (Z.of_nat (S j) * v) by lia.
    rewrite IH by (try lia; replace (S j + b)%nat with (j + S b)%nat by lia;
                   exact Hb).
    f_equal; [do 3 f_equal; lia | f_equal; lia].
Qed.

Lemma combine8_repeat (k : Z) :
  Z.abs (8 * k) <= 2 ^ 53 ->
  combine8 (repeat (Fin (inject_Z k)) 8) = Fin (inject_Z (8 * k)).
Proof.
  intros Hk. cbn [repeat combine8].
  rewrite (fadd_int k k) by lia. rewrite (fadd_int (k + k) (k + k)) by lia.
  rewrite fadd_int by lia. do 2 f_equal. lia.
Qed.

Lemma pairwise_sum_eq (fuel : nat) (a : list npfloat) :
  pairwise_sum fuel a =
  let n := length a in
  if (n <? 8)%nat then seq_add (Fin 0) a
  else if (n <=? 128)%nat then
    let '(r, rest) := unrolled (firstn 8 a) (skipn 8 a) (n / 8 - 1) in
    seq_add (combine8 r) rest
  else
    match fuel with
    | O => NaN
    | S f =>
        let n2 := (n / 2 - (n / 2) mod 8)%nat in
        fadd (pairwise_sum f (firstn n2 a)) (pairwise_sum f (skipn n2 a))
    end.
Proof. destruct fuel; reflexivity. Qed.

Lemma block_sum_repeat (v : Z) (n : nat) :
  (8 <= n)%nat ->
  Z.of_nat n * Z.abs v <= 2 ^ 53 ->
  (let '(r, rest) :=
     unrolled (firstn 8 (repeat (Fin (inject_Z v)) n))
       (skipn 8 (repeat (Fin (inject_Z v)) n)) (n / 8 - 1) in
   seq_add (combine8 r) rest)
  = Fin (inject_Z (Z.of_nat n * v)).
Proof.
  intros H8 Hb.
  pose proof (Nat.div_mod_eq n 8) as Hdm.
  pose proof (Nat.mod_upper_bound n 8 ltac:(lia)) as Hmod.
  assert (Hq : (1 <= n / 8)%nat) by (apply Nat.div_le_lower_bound; lia).
  rewrite firstn_repeat_le, skipn_repeat by lia.
  rewrite <- (Z.mul_1_l v) at 1. change 1 with (Z.of_nat 1).
  rewrite unrolled_repeat by (try lia; nia).
  replace (1 + (n / 8 - 1))%nat with (n / 8)%nat by lia.
  rewrite combine8_repeat by nia.
  replace (8 * (Z.of_nat (n / 8) * v))
    with (Z.of_nat (8 * (n / 8)) * v) by lia.
  rewrite seq_add_repeat.
  - do 3 f_equal. lia.
  - replace (8 * (n / 8) + (n - 8 - 8 * (n / 8 - 1)))%nat with n by lia.
    exact Hb.
Qed.

(** The pairwise sum of [n] copies of an integer [v] is [n * v], as long
    as that product has at most 53 bits. *)
Lemma pairwise_sum_repeat (v : Z) (fuel n : nat) :
  (n <= 128 + fuel)%nat ->
  Z.of_nat n * Z.abs v <= 2 ^ 53 ->
  pairwise_sum fuel (repeat (Fin (inject_Z v)) n)
  = Fin (inject_Z (Z.of_nat n * v)).
Proof.
  revert n. induction fuel as [|fuel IH]; intros n Hfuel Hb;
    rewrite pairwise_sum_eq, repeat_length; cbv zeta.
  all: destruct (Nat.ltb_spec n 8) as [H8|H8];
    [exact (seq_add_repeat v n 0 Hb)|].
  all: destruct (Nat.leb_spec n 128) as [H128|H128];
    [apply block_sum_repeat; assumption | try lia].
  set (n2 := (n / 2 - (n / 2) mod 8)%nat).
  assert (Hn2 : (57 <= n2 <= n / 2)%nat).
  { subst n2. pose proof (Nat.mod_upper_bound (n / 2) 8 ltac:(lia)).
    assert (64 <= n / 2)%nat by (apply Nat.div_le_lower_bound; lia). lia. }
  pose proof (Nat.div_mod_eq n 2) as Hdm.
  assert (Hle : (n2 <= n)%nat) by lia.
  rewrite firstn_repeat_le, skipn_repeat by exact Hle.
  rewrite (IH n2) by (try lia; nia).
  rewrite (IH (n - n2)%nat) by (try lia; nia).
  rewrite fadd_int by nia. do 2 f_equal. lia.
Qed.

Lemma float_of_Z_int (z : Z) :
  Z.abs z <= 2 ^ 53 -> float_of_Z z = Fin (inject_Z z).
Proof. intros Hz. apply fl64_int; [reflexivity | exact Hz]. Qed.

(** The mean of a constant row of small integers is the constant. *)
Lemma row_mean_repeat (v : Z) (n : nat) :
  (0 < n)%nat ->
  Z.of_nat n * Z.max 1 (Z.abs v) <= 2 ^ 53 ->
  row_mean (repeat (Fin (inject_Z v)) n) = Fin (inject_Z v).
Proof.
  intros Hn Hb. unfold row_mean, np_sum. rewrite repeat_length.
  rewrite pairwise_sum_repeat by (try lia; nia).
  rewrite float_of_Z_int by nia.
  cbn [fdiv]. change 0%Q with (inject_Z 0). rewrite Qeq_bool_inject_Z.
  destruct (Z.eqb_spec (Z.of_nat n) 0) as [E|E]; [lia|].
  apply fl64_int; [|nia].
  rewrite inject_Z_mult. field.
  change 0%Q with (inject_Z 0). rewrite inject_Z_injective. exact E.
Qed.

Lemma deviations_repeat (v : Z) (n : nat) :
  Z.of_nat n * Z.max 1 (Z.abs v) <= 2 ^ 53 ->
  deviations (repeat (Fin (inject_Z v)) n) = repeat (Fin 0) n.
Proof.
  intros Hb. destruct n as [|n]; [reflexivity|].
  unfold deviations. rewrite row_mean_repeat by (try lia; exact Hb).
  rewrite map_repeat, fsub_self. reflexivity.
Qed.

Lemma dot_zero (n : nat) : dot (repeat (Fin 0) n) (repeat (Fin 0) n) = Fin 0.
Proof.
  unfold dot. induction n as [|n IH]; [reflexivity|].
  cbn [repeat dot_from].
  change (fadd (Fin 0) (fmul (Fin 0) (Fin 0))) with (Fin 0). exact IH.
Qed.

(** With all deviations zero, a covariance entry is [0], or NaN. *)
Lemma cov_entry_zero (x y : list npfloat) (n : nat) :
  deviations x = repeat (Fin 0) n -> deviations y = repeat (Fin 0) n ->
  cov_entry x y = Fin 0 \/ cov_entry x y = NaN.
Proof.
  intros Hx Hy. unfold cov_entry. rewrite Hx, Hy, dot_zero.
  unfold cov_fact. destruct (Z.of_nat (length x) - 1 <=? 0).
  - right. reflexivity.
  - unfold float_of_Z.
    destruct (fl64 (inject_Z (Z.of_nat (length x) - 1))) as [f| | |] eqn:Ef.
    + cbn [fdiv]. destruct (Qeq_bool f 0).
      * right. reflexivity.
      * pose proof (fl64_not_nan (1 / f)) as Hnn.
        destruct (fl64 (1 / f)) as [r| | |]; [left|right|right|contradiction].
        -- cbn [fmul]. apply fl64_zero. apply Qmult_0_l.
        -- reflexivity.
        -- reflexivity.
    + left. reflexivity.
    + left. reflexivity.
    + right. reflexivity.
Qed.

Lemma corrcoef01_zero_deviations (x y : list npfloat) (n : nat) :
  deviations x = repeat (Fin 0) n -> deviations y = repeat (Fin 0) n ->
  corrcoef01 x y = NaN.
Proof.
  intros Hx Hy. unfold corrcoef01.
  destruct (cov_entry_zero x y n Hx Hy) as [-> | ->]; [|reflexivity].
  destruct (cov_entry_zero x x n Hx Hx) as [-> | ->]; reflexivity.
Qed.

(** ** Generators *)

Lemma truncate_bounds (q : Q) (n : Z) :
  (0 <= q <= inject_Z n)%Q -> 0 <= truncate q <= n.
Proof.
  intros [H0 Hn]. unfold truncate.
  destruct (Qle_bool 0 q) eqn:E.
  - split.
    + change 0 with (Qfloor (inject_Z 0)). apply Qfloor_resp_le. exact H0.
    + rewrite <- (Qfloor_Z n). apply Qfloor_resp_le. exact Hn.
  - apply Qle_bool_iff in H0. congruence.
Qed.

Lemma int64_true (z : Z) : - 2 ^ 63 <= z < 2 ^ 63 -> int64 z = true.
Proof.
  intros Hz. unfold int64.
  destruct (Z.leb_spec (- 2 ^ 63) z); [|lia].
  destruct (Z.ltb_spec z (2 ^ 63)); [reflexivity | lia].
Qed.

Lemma astype_int64_bounds (q : Q) (n : Z) :
  n < 2 ^ 63 -> (0 <= q <= inject_Z n)%Q -> 0 <= astype_int64 q <= n.
Proof.
  intros Hn Hq. pose proof (truncate_bounds q n Hq) as Ht.
  unfold astype_int64. rewrite int64_true by lia. exact Ht.
Qed.

Lemma clip_round_range (h : Z) (v : Q) :
  0 <= h < 2 ^ 63 -> 0 <= clip_round (inject_Z h) v <= h.
Proof.
  intros Hh. unfold clip_round. apply astype_int64_bounds; [lia|].
  apply np_clip_bounds. change 0%Q with (inject_Z 0).
  rewrite <- Zle_Qle. lia.
Qed.

(** [round_half_even] yields an integer at distance at most one half. *)
Lemma round_half_even_nearest (q : Q) :
  (q - (1 # 2) <= inject_Z (round_half_even q) <= q + (1 # 2))%Q.
Proof.
  unfold round_half_even.
  pose proof (Qfloor_le q) as Hlo. pose proof (Qlt_floor q) as Hhi.
  rewrite inject_Z_plus in Hhi. change (inject_Z 1) with 1%Q in Hhi.
  destruct (q - inject_Z (Qfloor q) ?= 1 # 2)%Q eqn:E.
  - apply Qeq_alt in E.
    destruct (Z.even (Qfloor q));
      rewrite ?inject_Z_plus; change (inject_Z 1) with 1%Q; lra.
  - apply Qlt_alt in E. lra.
  - apply Qgt_alt in E.
    rewrite inject_Z_plus. change (inject_Z 1) with 1%Q. lra.
Qed.

(** [float(n)] is exact on an integer of at most 53 bits. *)
Lemma py_float_int (z : Z) :
  Z.abs z <= 2 ^ 53 -> py_float z = Ok (inject_Z z).
Proof.
  intros Hz. unfold py_float.
  rewrite (fl64_int (inject_Z z) z) by (try reflexivity; exact Hz).
  reflexivity.
Qed.

(** The quotient of a natural number below the float range by a positive
    one is a non-negative float. *)
Lemma py_truediv_nonneg (a b : Z) :
  0 <= a < float_max_Z -> 0 < b ->
  exists x : Q, py_truediv a b = Ok x /\ (0 <= x)%Q.
Proof.
  intros Ha Hb. unfold py_truediv.
  destruct (Z.eqb_spec b 0) as [E|_]; [lia|].
  assert (Hb' : (0 < inject_Z b)%Q)
    by (change 0%Q with (inject_Z 0); rewrite <- Zlt_Qlt; exact Hb).
  assert (Ha' : (0 <= inject_Z a)%Q)
    by (change 0%Q with (inject_Z 0); rewrite <- Zle_Qle; lia).
  destruct (fl64_nonneg (inject_Z a / inject_Z b)) as [x [Hx Hpos]].
  - apply Qle_shift_div_l; [exact Hb'|]. rewrite Qmult_0_l. exact Ha'.
  - apply Qle_lt_trans with (inject_Z a).
    + apply Qle_shift_div_r; [exact Hb'|].
      rewrite <- inject_Z_mult, <- Zle_Qle. nia.
    + unfold float_max_bound. rewrite <- Zlt_Qlt. lia.
  - exists x. rewrite Hx. split; [reflexivity | exact Hpos].
Qed.

Section GeneratorProperties.
Context {Rng : Type} `{RandomSource Rng}.

Lemma c_style_rand_ok (N size : Z) (s : Rng) :
  0 < N -> 0 < size ->
  c_style_rand N size s = Ok (draws (randint 0 (N - 1)) (Z.to_nat size) s).
Proof.
  intros HN Hs. unfold c_style_rand.
  destruct (size <=? 0) eqn:E1; [lia|].
  destruct (N - 1 <? 0) eqn:E2; [lia|]. reflexivity.
Qed.

Lemma uniform_rand_ok (N size : Z) (s : Rng) :
  0 < N <= 2 ^ 63 -> 0 < size ->
  uniform_rand N size s = Ok (draws (np_randint 0 N) (Z.to_nat size) s).
Proof.
  intros HN Hs. unfold uniform_rand.
  destruct (size <? 0) eqn:E1; [lia|].
  destruct (size =? 0) eqn:E2; [lia|].
  destruct (N <=? 0) eqn:E3; [lia|].
  destruct (2 ^ 63 <? N) eqn:E4; [lia|]. reflexivity.
Qed.

(** Above [2 ^ 63] the bound does not fit [int64], and NumPy refuses it. *)
Lemma uniform_rand_large_N (N size : Z) (s : Rng) :
  2 ^ 63 < N -> size <> 0 -> uniform_rand N size s = Raise ValueError.
Proof.
  intros HN Hs. unfold uniform_rand.
  destruct (size <? 0); [reflexivity|].
  destruct (Z.eqb_spec size 0) as [E|_]; [contradiction|].
  destruct (Z.ltb_spec (2 ^ 63) N) as [_|E]; [|lia].
  rewrite orb_true_r. reflexivity.
Qed.

Lemma normal_rand_ok (N size : Z) (s : Rng) :
  0 < N <= 2 ^ 53 + 1 -> 0 <= size ->
  exists mean std : Q,
    py_truediv (N - 1) 2 = Ok mean
    /\ py_truediv (N - 1) 6 = Ok std
    /\ normal_rand N size s =
       Ok (map (clip_round (inject_Z (N - 1)))
             (fst (draws (np_normal mean std) (Z.to_nat size) s)),
           snd (draws (np_normal mean std) (Z.to_nat size) s)).
Proof.
  intros HN Hs. pose proof float_max_big as Hbig.
  destruct (py_truediv_nonneg (N - 1) 2) as [mean [Hmean _]]; [lia | lia|].
  destruct (py_truediv_nonneg (N - 1) 6) as [std [Hstd Hpos]]; [lia | lia|].
  exists mean, std. split; [exact Hmean|]. split; [exact Hstd|].
  unfold normal_rand. rewrite Hmean, Hstd. cbn [mbind result_bind].
  rewrite (proj2 (Qle_bool_iff _ _) Hpos).
  destruct (size <? 0) eqn:E1; [lia|]. cbn [orb negb].
  destruct (draws _ _ s) as [values s'].
  rewrite py_float_int by lia. reflexivity.
Qed.

(** Within its numeric range, and on a positive size, the selected
    generator returns. *)
Lemma rand_func_valid_config (g : GeneratorKind) (N size : Z) (s : Rng) :
  generator_domain g N = true -> 0 < size ->
  exists (values : list Z) (s' : Rng),
    rand_func g N size s = Ok (values, s')
    /\ Z.of_nat (length values) = size
    /\ Forall (fun x => 0 <= x < N) values.
Proof.
  intros Hdom Hs. unfold generator_domain in Hdom.
  apply andb_prop in Hdom as [HN Hmax]. apply Z.ltb_lt in HN.
  destruct g; cbn [rand_func].
  - rewrite c_style_rand_ok by assumption.
    pose proof (draws_length (randint 0 (N - 1)) (Z.to_nat size) s) as Hl.
    pose proof (draws_Forall (randint 0 (N - 1))
                  (fun x => 0 <= x < N) (Z.to_nat size) s) as Hr.
    destruct (draws _ _ s) as [values s']. cbn [fst] in *.
    exists values, s'. split; [reflexivity|]. split; [lia|].
    apply Hr. intros s0.
    pose proof (randint_range 0 (N - 1) s0 ltac:(lia)) as Hb. cbn beta. lia.
  - apply Z.leb_le in Hmax. rewrite uniform_rand_ok by lia.
    pose proof (draws_length (np_randint 0 N) (Z.to_nat size) s) as Hl.
    pose proof (draws_Forall (np_randint 0 N)
                  (fun x => 0 <= x < N) (Z.to_nat size) s) as Hr.
    destruct (draws _ _ s) as [values s']. cbn [fst] in *.
    exists values, s'. split; [reflexivity|]. split; [lia|].
    apply Hr. intros s0. cbn beta. apply np_randint_range. lia.
  - apply Z.leb_le in Hmax.
    destruct (normal_rand_ok N size s) as (mean & std & _ & _ & Hret);
      [lia | lia|].
    rewrite Hret. eexists _, _. split; [reflexivity|]. split.
    + rewrite length_map, draws_length. lia.
    + apply List.Forall_forall. intros x Hx. apply in_map_iff in Hx.
      destruct Hx as [v [<- _]].
      pose proof (clip_round_range (N - 1) v ltac:(lia)). lia.
Qed.


End GeneratorProperties.



(** What the three generators return on the concrete source. *)
Example generators_run :
  c_style_rand 6 4 20240 = Ok ([3; 2; 5; 2], 939740220)
  /\ uniform_rand 6 4 20240 = Ok ([2; 2; 1; 5], 939740220)
  /\ normal_rand 6 8 20240 = Ok ([0; 3; 5; 2; 5; 2; 4; 5], 1121382440).
Proof. vm_compute. repeat split. Qed.

(** [.astype(int)] of a float that holds a natural number of [int64] is
    that number. *)
Lemma astype_int64_inject (q : Q) (m : Z) :
  (q == inject_Z m)%Q -> 0 <= m < 2 ^ 63 -> astype_int64 q = m.
Proof.
  intros Hq Hm. unfold astype_int64, truncate.
  assert (H0 : Qle_bool 0 q = true).
  { apply Qle_bool_iff. rewrite Hq. change 0%Q with (inject_Z 0).
    rewrite <- Zle_Qle. lia. }
  rewrite H0, (Qfloor_comp _ _ Hq), Qfloor_Z, int64_true by lia. reflexivity.
Qed.

(** Clipping an integer-valued float between [0] and [hi] is the integer
    clamp. *)
Lemma np_clip_inject (z hi : Z) :
  0 <= hi ->
  (np_clip (inject_Z z) 0 (inject_Z hi) == inject_Z (Z.min (Z.max z 0) hi))%Q.
Proof.
  intros Hhi. unfold np_clip. change 0%Q with (inject_Z 0).
  destruct (Q.max_spec (inject_Z z) (inject_Z 0)) as [[Hlt Hmax]|[Hle Hmax]];
    destruct (Q.min_spec (Qmax (inject_Z z) (inject_Z 0)) (inject_Z hi))
      as [[Hlt' Hmin]|[Hle' Hmin]];
    rewrite Hmin; rewrite ?Hmax; rewrite Hmax in *;
    rewrite <- ?Zlt_Qlt, <- ?Zle_Qle in *;
    apply inject_Z_injective; lia.
Qed.

(** The post-processing of one draw: the integer nearest to it, clamped. *)
Lemma clip_round_clamp (h : Z) (v : Q) :
  0 <= h < 2 ^ 63 ->
  clip_round (inject_Z h) v = Z.min (Z.max (round_half_even v) 0) h.
Proof.
  intros Hh. unfold clip_round, np_round.
  apply astype_int64_inject; [apply np_clip_inject|]; lia.
Qed.

(** C2, as the code has it: [c_style_rand] draws directly, without a
    reduction modulo [N]. On the concrete source at state [1] the word
    drawn is [1103527590]; [randint(0, 2)] scales it to [1], whereas its
    residue modulo [3] is [0]. *)
Theorem c_style_rand_draws_directly :
  c_style_rand 3 1 1 = Ok ([1], 1103527590)
  /\ modulo_uniform 3 1 1 = ([0], 1103527590).
Proof. split; vm_compute; reflexivity. Qed.

Section GeneratorMechanism.
Context {Rng : Type} `{RandomSource Rng}.

(** Every value of [c_style_rand] is what [randint(0, N - 1)] returns on
    the state left by the draws before it: the library's direct draw, with
    no reduction of its own. *)
Lemma c_style_rand_nth (N size : Z) (s : Rng) (i : nat) :
  0 < N -> 0 < size -> (i < Z.to_nat size)%nat ->
  exists (values : list Z) (s' : Rng),
    c_style_rand N size s = Ok (values, s')
    /\ nth i values 0 =
       fst (randint 0 (N - 1)
              (Nat.iter i (fun t => snd (randint 0 (N - 1) t)) s)).
Proof.
  intros HN Hs Hi. rewrite c_style_rand_ok by assumption.
  pose proof (draws_nth (randint 0 (N - 1)) (Z.to_nat size) i s 0 Hi) as Hn.
  destruct (draws _ _ s) as [values s']. cbn [fst] in Hn.
  exists values, s'. split; [reflexivity | exact Hn].
Qed.

(** C5, for [0 < N <= 2 ^ 53 + 1], where [N - 1] is a float64.
    [normal_rand] draws [size] values from [np.random.normal] with the
    float quotients [(N - 1) / 2] as mean and [(N - 1) / 6] as standard
    deviation, and maps each draw to the clamp into [[0, N - 1]] of the
    integer nearest to it; every output lies in [[0, N - 1]], and for
    [N = 1] every output is [0]. *)
Theorem normal_rand_clipped (N size : Z) (s : Rng) :
  0 < N <= 2 ^ 53 + 1 -> 0 <= size ->
  exists (mean std : Q) (vs : list Q) (s' : Rng),
    py_truediv (N - 1) 2 = Ok mean
    /\ py_truediv (N - 1) 6 = Ok std
    /\ draws (np_normal mean std) (Z.to_nat size) s = (vs, s')
    /\ Z.of_nat (length vs) = size
    /\ normal_rand N size s = Ok (map (clip_round (inject_Z (N - 1))) vs, s')
    /\ (forall v : Q,
          (v - (1 # 2) <= inject_Z (round_half_even v) <= v + (1 # 2))%Q
          /\ clip_round (inject_Z (N - 1)) v
             = Z.min (Z.max (round_half_even v) 0) (N - 1))
    /\ Forall (fun x => 0 <= x <= N - 1)
         (map (clip_round (inject_Z (N - 1))) vs)
    /\ (N = 1 ->
        Forall (fun x => x = 0) (map (clip_round (inject_Z (N - 1))) vs)).
Proof.
  intros HN Hs.
  destruct (normal_rand_ok N size s HN Hs) as (mean & std & Hmean & Hstd & Hret).
  pose proof (draws_length (np_normal mean std) (Z.to_nat size) s) as Hl.
  exists mean, std.
  destruct (draws (np_normal mean std) (Z.to_nat size) s) as [vs s'].
  cbn [fst snd] in *.
  assert (Hr : Forall (fun x => 0 <= x <= N - 1)
                 (map (clip_round (inject_Z (N - 1))) vs)).
  { apply List.Forall_forall. intros x Hx.
    apply in_map_iff in Hx. destruct Hx as [v [<- _]].
    apply clip_round_range. lia. }
  exists vs, s'.
  split; [exact Hmean|]. split; [exact Hstd|]. split; [reflexivity|].
  split; [lia|]. split; [exact Hret|]. split; [|split; [exact Hr|]].
  - intros v. split; [apply round_half_even_nearest|].
    apply clip_round_clamp. lia.
  - intros ->. eapply List.Forall_impl; [|exact Hr].
    cbn beta. intros. lia.
Qed.

End GeneratorMechanism.

(** [normal_rand] on the concrete source, for [N = 1]. *)
Lemma normal_rand_clipped_witness :
  0 < 1 <= 2 ^ 53 + 1 /\ 0 <= 3
  /\ normal_rand 1 3 7 = Ok ([0; 0; 0], 712265938)
  /\ exists (vs : list Q) (s' : Z),
       Z.of_nat (length vs) = 3
       /\ normal_rand 1 3 7 = Ok (map (clip_round (inject_Z (1 - 1))) vs, s')
       /\ Forall (fun x => 0 <= x <= 1 - 1)
            (map (clip_round (inject_Z (1 - 1))) vs)
       /\ (1 = 1 ->
           Forall (fun x => x = 0) (map (clip_round (inject_Z (1 - 1))) vs)).
Proof.
  assert (HN : 0 < 1 <= 2 ^ 53 + 1) by lia. assert (Hs : 0 <= 3) by lia.
  split; [exact HN|]. split; [exact Hs|].
  split; [vm_compute; reflexivity|].
  destruct (normal_rand_clipped 1 3 7 HN Hs)
    as (mean & std & vs & s' & _ & _ & _ & Hlen & Hret & _ & Hr & Hzero).
  exists vs, s'. split; [exact Hlen|]. split; [exact Hret|].
  split; [exact Hr | exact Hzero].
Defined.

(** With [N = 2 ^ 53 + 4] the bound [N - 1] is not a float64: [np.clip]
    compares with its rounded value [2 ^ 53 + 4], and the output is [N]
    itself, outside [[0, N - 1]]. *)
Lemma normal_rand_beyond_range :
  0 < 2 ^ 53 + 4
  /\ py_float (2 ^ 53 + 4 - 1) = Ok (inject_Z (2 ^ 53 + 4))
  /\ normal_rand (2 ^ 53 + 4) 1 7 = Ok ([2 ^ 53 + 4], 1282168116).
Proof. split; [lia|]. split; vm_compute; reflexivity. Qed.

(** ** Run count *)

Lemma wrap64_small (z : Z) : - 2 ^ 63 <= z < 2 ^ 63 -> wrap64 z = z.
Proof. intros Hz. unfold wrap64. rewrite Z.mod_small by lia. lia. Qed.

Lemma np_diff_int64_length (l : list Z) :
  length (np_diff_int64 l) = (length l - 1)%nat.
Proof.
  induction l as [|a [|b t] IH]; [reflexivity | reflexivity |].
  change (np_diff_int64 (a :: b :: t))
    with (wrap64 (b - a) :: np_diff_int64 (b :: t)).
  cbn [length] in *. lia.
Qed.

(** Without overflow the [int64] differences are the mathematical ones. *)
Lemma np_diff_int64_exact (l : list Z) :
  no_overflow l = true -> np_diff_int64 l = np_diff l.
Proof.
  unfold no_overflow.
  induction l as [|a [|b t] IH]; intros Hno; [reflexivity | reflexivity |].
  change (np_diff (a :: b :: t)) with ((b - a) :: np_diff (b :: t)) in *.
  change (np_diff_int64 (a :: b :: t))
    with (wrap64 (b - a) :: np_diff_int64 (b :: t)).
  cbn [forallb] in Hno. apply andb_prop in Hno as [Hd Hrest].
  rewrite (IH Hrest). f_equal. apply wrap64_small.
  unfold int64 in Hd. apply andb_prop in Hd as [Hlo Hhi].
  apply Z.leb_le in Hlo. apply Z.ltb_lt in Hhi. lia.
Qed.

(** The differences of signs never overflow. *)
Lemma no_overflow_signs (l : list Z) : no_overflow (map Z.sgn l) = true.
Proof.
  unfold no_overflow.
  induction l as [|a [|b t] IH]; [reflexivity | reflexivity |].
  change (np_diff (map Z.sgn (a :: b :: t)))
    with ((Z.sgn b - Z.sgn a) :: np_diff (map Z.sgn (b :: t))).
  cbn [forallb]. rewrite IH, andb_true_r. apply int64_true.
  pose proof (Z.sgn_spec a). pose proof (Z.sgn_spec b). lia.
Qed.


Lemma sum_trend_changes (signs : list Z) :
  length (List.filter (fun b : bool => b)
            (map (fun d => negb (d =? 0)) (np_diff signs)))
  = sign_changes signs.
Proof.
  induction signs as [|a [|b t] IH]; [reflexivity | reflexivity |].
  change (np_diff (a :: b :: t)) with ((b - a) :: np_diff (b :: t)).
  cbn [map List.filter sign_changes].
  destruct (Z.eqb_spec (b - a) 0) as [E|E]; destruct (Z.eqb_spec a b) as [E'|E'];
    try lia; cbn [negb length]; rewrite IH; reflexivity.
Qed.

Lemma run_count_refines (samples : list Z) :
  no_overflow samples = true -> run_count samples = run_count_spec samples.
Proof.
  intros Hno. unfold run_count, run_count_spec, np_sum_bool, trend_changes.
  rewrite (np_diff_int64_exact samples Hno).
  rewrite (np_diff_int64_exact _ (no_overflow_signs (np_diff samples))).
  rewrite sum_trend_changes. reflexivity.
Qed.






(** ** Frequencies *)

Lemma Counter_foldl_get (samples : list Z) (m : gmap Z nat) (k : Z) :
  default O
    (foldl (fun m x => <[x := S (default O (m !! x))]> m) m samples !! k)
  = (default O (m !! k) + count_occ Z.eq_dec samples k)%nat.
Proof.
  revert m. induction samples as [|x samples IH]; intros m; cbn [foldl].
  - cbn. lia.
  - rewrite IH. cbn [count_occ]. destruct (Z.eq_dec x k) as [->|Hne].
    + rewrite lookup_insert_eq. cbn. lia.
    + rewrite lookup_insert_ne by exact Hne. reflexivity.
Qed.

(** An entry of the counter is the number of occurrences of its key, and
    [get] fills in [0] for an absent key. *)
Lemma Counter_get (samples : list Z) (k : Z) :
  get (Counter samples) k O = count_occ Z.eq_dec samples k.
Proof.
  unfold get, Counter. rewrite Counter_foldl_get, lookup_empty. reflexivity.
Qed.

Lemma observed_length (N : Z) (samples : list Z) :
  length (observed N samples) = Z.to_nat N.
Proof. unfold observed, range. rewrite !length_map, length_seq. reflexivity. Qed.

Lemma sum_indicator_out (x : Z) (a n : nat) :
  x < Z.of_nat a \/ Z.of_nat (a + n) <= x ->
  sum_list (map (fun i => if Z.eq_dec x i then 1%nat else O)
              (map Z.of_nat (seq a n))) = O.
Proof.
  revert a. induction n as [|n IH]; intros a Hout; [reflexivity|].
  cbn [seq map sum_list]. rewrite IH by lia.
  destruct (Z.eq_dec x (Z.of_nat a)); [lia | reflexivity].
Qed.

Lemma sum_indicator_in (x : Z) (a n : nat) :
  Z.of_nat a <= x < Z.of_nat (a + n) ->
  sum_list (map (fun i => if Z.eq_dec x i then 1%nat else O)
              (map Z.of_nat (seq a n))) = 1%nat.
Proof.
  revert a. induction n as [|n IH]; intros a Hin; [lia|].
  cbn [seq map sum_list]. destruct (Z.eq_dec x (Z.of_nat a)) as [E|E].
  - rewrite sum_indicator_out by lia. reflexivity.
  - rewrite IH by lia. reflexivity.
Qed.

Lemma sum_count_occ (samples : list Z) (keys : list Z) :
  (forall x, In x samples ->
     sum_list (map (fun i => if Z.eq_dec x i then 1%nat else O) keys) = 1%nat) ->
  sum_list (map (fun i => count_occ Z.eq_dec samples i) keys) = length samples.
Proof.
  induction samples as [|x samples IH]; intros Hin.
  - clear Hin. induction keys as [|i keys IHk]; [reflexivity | exact IHk].
  - assert (Hsplit :
      sum_list (map (fun i => count_occ Z.eq_dec (x :: samples) i) keys)
      = (sum_list (map (fun i => if Z.eq_dec x i then 1%nat else O) keys)
         + sum_list (map (fun i => count_occ Z.eq_dec samples i) keys))%nat).
    { clear. induction keys as [|i keys IHk]; [reflexivity|].
      cbn [map sum_list].
      etransitivity; [apply f_equal2; [reflexivity | exact IHk]|].
      cbn [count_occ]. destruct (Z.eq_dec x i); unfold Datatypes.id; lia. }
    etransitivity; [exact Hsplit|].
    etransitivity; [apply f_equal2; [apply Hin; left; reflexivity | apply IH]|].
    + intros y Hy. apply Hin. right. exact Hy.
    + reflexivity.
Qed.

Lemma observed_sum (N : Z) (samples : list Z) :
  Forall (fun x => 0 <= x < N) samples ->
  sum_list (observed N samples) = length samples.
Proof.
  intros Hrange. unfold observed.
  rewrite (map_ext _ (fun i => count_occ Z.eq_dec samples i))
    by (intros; apply Counter_get).
  apply sum_count_occ. intros x Hx. unfold range.
  rewrite List.Forall_forall in Hrange. specialize (Hrange x Hx).
  apply sum_indicator_in. lia.
Qed.

Lemma observed_nth (N : Z) (samples : list Z) (i : Z) :
  0 <= i < N ->
  nth (Z.to_nat i) (observed N samples) O = count_occ Z.eq_dec samples i.
Proof.
  intros Hi. unfold observed.
  rewrite (map_ext _ (fun i => count_occ Z.eq_dec samples i))
    by (intros; apply Counter_get).
  unfold range. rewrite map_map.
  rewrite (nth_indep _ O (count_occ Z.eq_dec samples (Z.of_nat O)))
    by (rewrite length_map, length_seq; lia).
  rewrite (map_nth (fun x => count_occ Z.eq_dec samples (Z.of_nat x))).
  rewrite seq_nth by lia. f_equal. lia.
Qed.

(** C7. For a sample with values in [[0, N)], the observed frequencies that
    [distribution_check] hands to the chi-square statistic have exactly [N]
    entries, the entry of [i] being the number of occurrences of [i] (zero
    where absent), they sum to the sample length, and the expected
    frequencies are [N] times [len(samples) / N]. *)
Theorem observed_frequencies (N : Z) (samples : list Z) :
  0 < N ->
  Forall (fun x => 0 <= x < N) samples ->
  distribution_check N samples =
    Ok (observed N samples,
        repeat (inject_Z (Z.of_nat (length samples)) / inject_Z N)%Q
          (Z.to_nat N),
        chi2_stat (observed N samples)
          (repeat (inject_Z (Z.of_nat (length samples)) / inject_Z N)%Q
             (Z.to_nat N)))
  /\ Z.of_nat (length (observed N samples)) = N
  /\ (forall i, 0 <= i < N ->
        nth (Z.to_nat i) (observed N samples) O
        = count_occ Z.eq_dec samples i)
  /\ sum_list (observed N samples) = length samples.
Proof.
  intros HN Hrange. split; [|split; [|split]].
  - unfold distribution_check, expected.
    destruct (N =? 0) eqn:E0; [lia|]. destruct (N <? 0) eqn:E1; [lia|].
    reflexivity.
  - rewrite observed_length. lia.
  - intros i Hi. apply observed_nth, Hi.
  - apply observed_sum, Hrange.
Qed.

(** Six throws of a die with faces [0..5]. *)
Lemma observed_frequencies_witness :
  observed 6 [3; 0; 5; 3; 3; 1] = [1; 1; 0; 3; 0; 1]%nat
  /\ Z.of_nat (length (observed 6 [3; 0; 5; 3; 3; 1])) = 6
  /\ sum_list (observed 6 [3; 0; 5; 3; 3; 1]) = length [3; 0; 5; 3; 3; 1].
Proof.
  assert (Hr : Forall (fun x => 0 <= x < 6) [3; 0; 5; 3; 3; 1])
    by (repeat constructor; lia).
  destruct (observed_frequencies 6 [3; 0; 5; 3; 3; 1] ltac:(lia) Hr)
    as (_ & Hlen & _ & Hsum).
  split; [vm_compute; reflexivity|]. split; [exact Hlen | exact Hsum].
Defined.

(** ** Inter-occurrence intervals *)

(** A value met for the first time opens a new entry at the end. *)
Lemma append_pos_fresh (positions : list (Z * list nat)) (val : Z) (idx : nat) :
  ~ In val (map fst positions) ->
  append_pos positions val idx = positions ++ [(val, [idx])].
Proof.
  induction positions as [|[k pos] rest IH]; intros Hfresh; [reflexivity|].
  cbn [append_pos]. cbn [map fst In] in Hfresh.
  destruct (Z.eqb_spec k val) as [E|E]; [tauto|].
  rewrite IH by tauto. reflexivity.
Qed.

(** On a sample without repetition every value gets one entry, holding the
    single index of the value. *)
Lemma fill_positions_distinct (samples : list Z)
  (positions : list (Z * list nat)) (idx : nat) :
  List.NoDup samples ->
  (forall v, In v samples -> ~ In v (map fst positions)) ->
  fill_positions positions idx samples
  = positions
    ++ map (fun p => (snd p, [fst p])) (combine (seq idx (length samples)) samples).
Proof.
  revert positions idx.
  induction samples as [|val rest IH]; intros positions idx Hnd Hfresh.
  - cbn. rewrite app_nil_r. reflexivity.
  - inversion Hnd as [|? ? Hnotin Hnd']; subst.
    cbn [fill_positions length seq combine map fst snd].
    rewrite append_pos_fresh by (apply Hfresh; left; reflexivity).
    rewrite IH; [rewrite <- app_assoc; reflexivity | exact Hnd' |].
    intros v Hv. rewrite map_app, in_app_iff. cbn [map fst In].
    intros [Hin|[->|[]]]; [|exact (Hnotin Hv)].
    exact (Hfresh v (or_intror Hv) Hin).
Qed.

Lemma concat_all_nil {A : Type} (ls : list (list A)) :
  Forall (fun l => l = []) ls -> concat ls = [].
Proof.
  induction 1 as [|l ls Hl _ IH]; [reflexivity|].
  cbn [concat]. rewrite Hl, IH. reflexivity.
Qed.

(** C9. On a non-empty sample in which every value appears at most once,
    the interval computation of [distribution_test] does not raise and
    yields the empty array. *)
Theorem intervals_of_distinct_sample (samples : list Z) :
  samples <> [] ->
  (forall v, (count_occ Z.eq_dec samples v <= 1)%nat) ->
  intervals samples = Ok [].
Proof.
  intros Hne Honce.
  assert (Hnd : List.NoDup samples)
    by (apply (List.NoDup_count_occ Z.eq_dec); exact Honce).
  unfold intervals, build_positions.
  rewrite fill_positions_distinct by (cbn; auto). cbn [app].
  rewrite map_map. cbn [snd map np_diff].
  destruct samples as [|val rest]; [congruence|].
  cbn [length seq combine map np_concatenate].
  f_equal. cbn [concat app]. apply concat_all_nil.
  apply List.Forall_forall. intros l Hl. apply in_map_iff in Hl.
  destruct Hl as [p [<- _]]. reflexivity.
Qed.

(** Five distinct values. *)
Lemma intervals_of_distinct_sample_witness :
  [4; 0; 3; 1; 2] <> []
  /\ (forall v, (count_occ Z.eq_dec [4; 0; 3; 1; 2]%Z v <= 1)%nat)
  /\ intervals [4; 0; 3; 1; 2] = Ok [].
Proof.
  assert (Hne : [4; 0; 3; 1; 2] <> []) by discriminate.
  assert (Honce : forall v, (count_occ Z.eq_dec [4; 0; 3; 1; 2]%Z v <= 1)%nat).
  { intros v. cbn [count_occ].
    repeat match goal with |- context [Z.eq_dec ?a v] =>
      destruct (Z.eq_dec a v) end; lia. }
  split; [exact Hne|]. split; [exact Honce|].
  apply (intervals_of_distinct_sample [4; 0; 3; 1; 2] Hne Honce).
Defined.

(** A repeated value does leave an interval: [7] at positions 0 and 2. *)
Example intervals_repeated : intervals [7; 5; 7] = Ok [2].
Proof. reflexivity. Qed.


(** ** Lag-1 autocorrelation on degenerate samples *)

Lemma removelast_repeat {A : Type} (a : A) (n : nat) :
  removelast (repeat a (S n)) = repeat a n.
Proof.
  induction n as [|n IH]; [reflexivity|].
  change (repeat a (S (S n))) with (a :: repeat a (S n)).
  cbn [removelast]. rewrite IH. reflexivity.
Qed.

Lemma constant_is_repeat (samples : list Z) (v : Z) :
  Forall (fun x => x = v) samples -> samples = repeat v (length samples).
Proof.
  induction 1 as [|x l Hx _ IH]; [reflexivity|].
  cbn [length repeat]. rewrite Hx, <- IH. reflexivity.
Qed.

(** The two rows of a constant sample of small integers. *)
Lemma constant_rows (samples : list Z) (v : Z) :
  (1 <= length samples)%nat ->
  Forall (fun x => x = v) samples ->
  Z.abs v <= 2 ^ 53 ->
  map float_of_Z (removelast samples)
  = repeat (Fin (inject_Z v)) (length samples - 1)
  /\ map float_of_Z (tail samples)
     = repeat (Fin (inject_Z v)) (length samples - 1).
Proof.
  intros Hlen Hconst Hv.
  rewrite (constant_is_repeat samples v Hconst) at 1 3.
  destruct (length samples) as [|n]; [lia|].
  rewrite removelast_repeat. cbn [repeat tail].
  rewrite map_repeat, float_of_Z_int by exact Hv.
  replace (S n - 1)%nat with n by lia. split; reflexivity.
Qed.

(** The covariance of a row without deviation, of two elements or more,
    is [0]. *)
Lemma cov_entry_zero_fin (x : list npfloat) (n : nat) :
  (2 <= n)%nat -> Z.of_nat n <= 2 ^ 53 -> length x = n ->
  deviations x = repeat (Fin 0) n ->
  cov_entry x x = Fin 0.
Proof.
  intros Hn Hb Hlen Hx. unfold cov_entry. rewrite Hx, dot_zero.
  unfold cov_fact. rewrite Hlen.
  destruct (Z.leb_spec (Z.of_nat n - 1) 0) as [E|_]; [lia|].
  rewrite float_of_Z_int by lia. cbn [fdiv].
  change 0%Q with (inject_Z 0). rewrite Qeq_bool_inject_Z.
  destruct (Z.eqb_spec (Z.of_nat n - 1) 0) as [E|_]; [lia|].
  change (inject_Z 0) with 0%Q.
  destruct (fl64_nonneg (1 / inject_Z (Z.of_nat n - 1))) as [r [Hr _]].
  - apply Qle_shift_div_l.
    + change 0%Q with (inject_Z 0). rewrite <- Zlt_Qlt. lia.
    + rewrite Qmult_0_l. discriminate.
  - apply Qle_lt_trans with 1%Q.
    + apply Qle_shift_div_r.
      * change 0%Q with (inject_Z 0). rewrite <- Zlt_Qlt. lia.
      * rewrite Qmult_1_l. change 1%Q with (inject_Z 1).
        rewrite <- Zle_Qle. lia.
    + reflexivity.
  - rewrite Hr. cbn [fmul]. apply fl64_zero. apply Qmult_0_l.
Qed.


(** C10, for values small enough that the float64 sums of the rows are
    exact ([len(samples) * max(1, |v|) <= 2 ^ 53]). On a constant sample
    of length at least two, both truncated series have no deviation from
    their mean, the two standard deviations by which the covariance is
    divided are zero (NaN when the series have a single element), and the
    lag-1 coefficient is NaN; a result that is returned reports NaN. *)
Theorem constant_sample_autocorr_nan (samples : list Z) (v : Z) :
  (2 <= length samples)%nat ->
  Forall (fun x => x = v) samples ->
  Z.of_nat (length samples) * Z.max 1 (Z.abs v) <= 2 ^ 53 ->
  let x := map float_of_Z (removelast samples) in
  let y := map float_of_Z (tail samples) in
  deviations x = repeat (Fin 0) (length samples - 1)
  /\ deviations y = repeat (Fin 0) (length samples - 1)
  /\ fsqrt (cov_entry x x) = (if (length samples <=? 2)%nat then NaN else Fin 0)
  /\ fsqrt (cov_entry y y) = (if (length samples <=? 2)%nat then NaN else Fin 0)
  /\ lag1_autocorr samples = NaN
  /\ (forall acf runs,
         randomness_test samples = Ok (acf, runs) -> acf = NaN).
Proof.
  intros Hlen Hconst Hb x y.
  destruct (constant_rows samples v) as [Hx Hy]; [lia | exact Hconst | nia|].
  fold x in Hx. fold y in Hy.
  assert (Hdev : deviations x = repeat (Fin 0) (length samples - 1)).
  { rewrite Hx. apply deviations_repeat. nia. }
  assert (Hstd : fsqrt (cov_entry x x)
                 = if (length samples <=? 2)%nat then NaN else Fin 0).
  { destruct (Nat.leb_spec (length samples) 2) as [Hle|Hgt].
    - unfold cov_entry, cov_fact. rewrite Hdev, dot_zero, Hx, repeat_length.
      replace (length samples - 1)%nat with 1%nat by lia. reflexivity.
    - rewrite (cov_entry_zero_fin x (length samples - 1));
        [reflexivity | lia | nia | | exact Hdev].
      rewrite Hx. apply repeat_length. }
  assert (Hacf : lag1_autocorr samples = NaN).
  { unfold lag1_autocorr. fold x y.
    apply (corrcoef01_zero_deviations x y (length samples - 1)); [exact Hdev|].
    rewrite Hy, <- Hx. exact Hdev. }
  split; [exact Hdev|]. split; [rewrite Hy, <- Hx; exact Hdev|].
  split; [exact Hstd|]. split; [rewrite Hy, <- Hx; exact Hstd|].
  split; [exact Hacf|].
  intros acf runs. unfold randomness_test. rewrite Hacf.
  destruct (acorr samples 10); cbn; congruence.
Qed.

(** Twelve times the value [3]. *)
Lemma constant_sample_autocorr_nan_witness :
  (2 <= length (repeat 3%Z 12))%nat
  /\ Forall (fun x => x = 3) (repeat 3 12)
  /\ Z.of_nat (length (repeat 3 12)) * Z.max 1 (Z.abs 3) <= 2 ^ 53
  /\ lag1_autocorr (repeat 3 12) = NaN
  /\ randomness_test (repeat 3 12) = Ok (NaN, 1).
Proof.
  assert (Hlen : (2 <= length (repeat 3%Z 12))%nat) by (cbn; lia).
  assert (Hconst : Forall (fun x => x = 3) (repeat 3 12))
    by (repeat constructor).
  assert (Hb : Z.of_nat (length (repeat 3 12)) * Z.max 1 (Z.abs 3) <= 2 ^ 53)
    by (cbn; lia).
  destruct (constant_sample_autocorr_nan (repeat 3 12) 3 Hlen Hconst Hb)
    as (_ & _ & _ & _ & Hacf & _).
  split; [exact Hlen|]. split; [exact Hconst|]. split; [exact Hb|].
  split; [exact Hacf|].
  unfold randomness_test. rewrite Hacf. reflexivity.
Defined.

(** Twelve times the value [9007199254738994]: the sum of the eleven
    values of a row is rounded, the row mean comes out as the value minus
    one, every deviation is [1] instead of [0], and the coefficient is the
    number [1.0]. *)
Lemma constant_sample_autocorr_rounded :
  (2 <= length (repeat 9007199254738994%Z 12))%nat
  /\ Forall (fun x => x = 9007199254738994) (repeat 9007199254738994 12)
  /\ row_mean (map float_of_Z (removelast (repeat 9007199254738994 12)))
     = Fin (inject_Z 9007199254738993)
  /\ deviations (map float_of_Z (removelast (repeat 9007199254738994 12)))
     = repeat (Fin 1) 11
  /\ lag1_autocorr (repeat 9007199254738994 12) = Fin 1
  /\ randomness_test (repeat 9007199254738994 12) = Ok (Fin 1, 1).
Proof.
  split; [cbn; lia|]. split; [repeat constructor|].
  repeat split; vm_compute; reflexivity.
Qed.

(** ** Short samples in [randomness_test] *)






(** ** [performance_test] *)

(** Two equal readings of the clock: the division raises. *)
Lemma performance_test_zero_duration :
  performance_test RangeUniform 6 100 1 (17 # 1) (17 # 1)
  = Raise ZeroDivisionError.
Proof. vm_compute. reflexivity. Qed.

Section PerformanceTest.
Context {Rng : Type} `{RandomSource Rng}.

(** C4, as the code has it. The division [sample_size / duration] is made
    on the measured duration itself, with no floor and no other guard:
    with a valid configuration the generator returns, and when the two
    readings of the clock coincide the duration is [0.0] and the division
    raises [ZeroDivisionError]. *)
Theorem performance_test_division (g : GeneratorKind) (N sample_size : Z)
  (s : Rng) (reading : Q) :
  generator_domain g N = true -> 0 < sample_size < float_max_Z ->
  (exists (values : list Z) (s' : Rng),
      rand_func g N sample_size s = Ok (values, s'))
  /\ fsub (Fin reading) (Fin reading) = Fin 0
  /\ performance_test g N sample_size s reading reading
     = Raise ZeroDivisionError.
Proof.
  intros Hdom Hs.
  destruct (rand_func_valid_config g N sample_size s Hdom ltac:(lia))
    as (values & s' & Hgen & _).
  split; [exists values, s'; exact Hgen|].
  split; [apply fsub_self|].
  unfold performance_test. rewrite Hgen. cbn [mbind result_bind].
  rewrite fsub_self. unfold py_float.
  destruct (fl64_nonneg (inject_Z sample_size)) as [x [Hx _]].
  - change 0%Q with (inject_Z 0). rewrite <- Zle_Qle. lia.
  - unfold float_max_bound. rewrite <- Zlt_Qlt. lia.
  - rewrite Hx. reflexivity.
Qed.

End PerformanceTest.

(** A run that takes no measurable time. *)
Lemma performance_test_division_witness :
  generator_domain RangeUniform 6 = true /\ 0 < 100 < float_max_Z
  /\ performance_test RangeUniform 6 100 1 (17 # 1) (17 # 1)
     = Raise ZeroDivisionError.
Proof.
  assert (Hs : 0 < 100 < float_max_Z) by (split; reflexivity).
  split; [reflexivity|]. split; [exact Hs|].
  apply (performance_test_division RangeUniform 6 100 1 (17 # 1) eq_refl Hs).
Defined.

(** Readings that differ: [0.0] and the float64 [0.1] with one sample give
    the rate [10]; a quarter of a second for a hundred samples gives
    [400]. *)
Example performance_test_run :
  fl64 (1 # 10) = Fin (3602879701896397 # 36028797018963968)
  /\ performance_test RangeUniform 6 1 1 0
       (3602879701896397 # 36028797018963968) = Ok (10, 1103527590)
  /\ performance_test RangeUniform 6 100 1 (17 # 1) (69 # 4)
     = Ok (400, 1738083805).
Proof. repeat split; vm_compute; reflexivity. Qed.


(** ** Entropy *)

Local Open Scope R_scope.

Lemma ln_le_minus_1 (y : R) : 0 < y -> ln y <= y - 1.
Proof.
  intros Hy. pose proof (exp_ineq1_le (y - 1)) as Hexp.
  replace (1 + (y - 1)) with y in Hexp by lra.
  destruct Hexp as [Hlt|Heq].
  - left. rewrite <- (ln_exp (y - 1)). apply ln_increasing; assumption.
  - right. rewrite Heq at 1. apply ln_exp.
Qed.

Lemma ln_2_pos : 0 < ln 2.
Proof. rewrite <- ln_1. apply ln_increasing; lra. Qed.

(** The share of one positive probability in the bound. *)
Lemma entropy_term_bound (p M : R) :
  0 < p -> 0 < M -> - (p * ln p) <= p * ln M + / M - p.
Proof.
  intros Hp HM.
  assert (Hy : 0 < / (M * p)) by (apply Rinv_0_lt_compat; nra).
  pose proof (ln_le_minus_1 _ Hy) as Hln.
  rewrite ln_Rinv, ln_mult in Hln by nra.
  assert (Hmul : p * - (ln M + ln p) <= p * (/ (M * p) - 1))
    by (apply Rmult_le_compat_l; lra).
  replace (p * (/ (M * p) - 1)) with (/ M - p) in Hmul by (field; lra).
  lra.
Qed.

Lemma entropy_sum_bound (ps : list R) (M : R) :
  0 < M ->
  Forall (fun p => 0 <= p) ps ->
  - Rsum (map (fun p => p * ln p) (List.filter is_positive ps))
  <= ln M * Rsum ps + INR (length ps) * / M - Rsum ps.
Proof.
  intros HM Hnonneg. induction Hnonneg as [|p ps Hp _ IH].
  - cbn. lra.
  - assert (HinvM : 0 < / M) by (apply Rinv_0_lt_compat; exact HM).
    cbn [List.filter length]. rewrite S_INR. unfold is_positive at 1.
    change (Rsum (p :: ps)) with (p + Rsum ps).
    destruct (Rlt_dec 0 p) as [Hpos|Hzero].
    + cbn [map]. change (Rsum (?a :: ?l)) with (a + Rsum l).
      pose proof (entropy_term_bound p M Hpos HM). nra.
    + assert (p = 0) by lra. subst p. nra.
Qed.

Lemma Rsum_scale (f : R -> R) (c : R) (l : list R) :
  Rsum (map (fun p => f p * c) l) = Rsum (map f l) * c.
Proof.
  induction l as [|a l IH]; [cbn; lra|].
  cbn [map]. change (Rsum (?a :: ?l)) with (a + Rsum l). rewrite IH. lra.
Qed.

Lemma Rsum_probabilities (n : R) (counts : list nat) :
  Rsum (map (fun c => INR c / n) counts) = INR (sum_list counts) / n.
Proof.
  induction counts as [|c counts IH]; [cbn; lra|].
  cbn [map sum_list sum_list_with]. change (Rsum (?a :: ?l)) with (a + Rsum l).
  rewrite IH. unfold Datatypes.id. rewrite plus_INR. lra.
Qed.

Lemma probabilities_observed (N : Z) (samples : list Z) :
  probabilities N samples
  = map (fun c => INR c / INR (length samples)) (observed N samples).
Proof. unfold probabilities, observed. rewrite map_map. reflexivity. Qed.

(** The entropy of a non-empty sample over [[0, N)] is at most [log2 N]. *)
Lemma entropy_le_max (N : Z) (samples : list Z) :
  samples <> [] ->
  Forall (fun x => (0 <= x < N)%Z) samples ->
  entropy N samples <= max_entropy N.
Proof.
  intros Hne Hrange.
  assert (Hlen : 0 < INR (length samples)).
  { apply lt_0_INR. destruct samples; [congruence | cbn; lia]. }
  assert (HN : (0 < N)%Z).
  { destruct samples as [|x l]; [congruence|].
    inversion Hrange; subst. lia. }
  assert (HM : 0 < IZR N) by (apply IZR_lt; exact HN).
  assert (Hnonneg : Forall (fun p => 0 <= p) (probabilities N samples)).
  { rewrite probabilities_observed. apply List.Forall_forall.
    intros p Hp. apply in_map_iff in Hp. destruct Hp as [c [<- _]].
    apply Rmult_le_pos; [apply pos_INR|].
    left. apply Rinv_0_lt_compat. exact Hlen. }
  assert (Hsum : Rsum (probabilities N samples) = 1).
  { rewrite probabilities_observed, Rsum_probabilities.
    rewrite (observed_sum N samples Hrange). field. lra. }
  assert (Hcard : INR (length (probabilities N samples)) = IZR N).
  { rewrite probabilities_observed, length_map, observed_length.
    rewrite INR_IZR_INZ, Z2Nat.id by lia. reflexivity. }
  pose proof (entropy_sum_bound _ _ HM Hnonneg) as Hbound.
  rewrite Hsum, Hcard in Hbound.
  replace (ln (IZR N) * 1 + IZR N * / IZR N - 1) with (ln (IZR N)) in Hbound
    by (field; lra).
  unfold entropy, max_entropy, log2.
  rewrite (map_ext (fun p => p * (ln p / ln 2))
             (fun p => (fun q => q * ln q) p * / ln 2))
    by (intros; unfold Rdiv; ring).
  rewrite Rsum_scale. pose proof ln_2_pos as H2.
  unfold Rdiv. rewrite Ropp_mult_distr_l.
  apply Rmult_le_compat_r; [left; apply Rinv_0_lt_compat; exact H2|].
  exact Hbound.
Qed.

Lemma entropy_constant_sample : entropy 1 [0; 0; 0; 0]%Z = 0.
Proof.
  unfold entropy.
  assert (Hp : probabilities 1 [0; 0; 0; 0]%Z = [1]).
  { unfold probabilities. change (range 1) with [0%Z]. cbn [map].
    rewrite Counter_get. cbn. f_equal. field. }
  rewrite Hp. cbn [List.filter]. unfold is_positive.
  destruct (Rlt_dec 0 1) as [_|Hn]; [|lra].
  cbn [map Rsum fold_right]. unfold log2. rewrite ln_1. unfold Rdiv. ring.
Qed.

Lemma max_entropy_1 : max_entropy 1 = 0.
Proof. unfold max_entropy, log2. rewrite ln_1. unfold Rdiv. ring. Qed.

Local Open Scope Z_scope.

(** A quotient of two naturals that is at most one is a float. *)
Lemma py_truediv_unit (a b : Z) :
  0 <= a <= b -> 0 < b -> exists x : Q, py_truediv a b = Ok x /\ (0 <= x)%Q.
Proof.
  intros Ha Hb. unfold py_truediv.
  destruct (Z.eqb_spec b 0) as [E|_]; [lia|].
  assert (Hb' : (0 < inject_Z b)%Q)
    by (change 0%Q with (inject_Z 0); rewrite <- Zlt_Qlt; exact Hb).
  destruct (fl64_nonneg (inject_Z a / inject_Z b)) as [x [Hx Hpos]].
  - apply Qle_shift_div_l; [exact Hb'|]. rewrite Qmult_0_l.
    change 0%Q with (inject_Z 0). rewrite <- Zle_Qle. lia.
  - apply Qle_lt_trans with 1%Q; [|reflexivity].
    apply Qle_shift_div_r; [exact Hb'|].
    rewrite Qmult_1_l, <- Zle_Qle. lia.
  - exists x. rewrite Hx. split; [reflexivity | exact Hpos].
Qed.

Lemma map_result_ok {A B : Type} (f : A -> result B) (l : list A) :
  (forall a, In a l -> exists b, f a = Ok b) ->
  exists bs, map_result f l = Ok bs /\ length bs = length l.
Proof.
  induction l as [|a l IH]; intros Hf.
  - exists []. split; reflexivity.
  - destruct (Hf a (or_introl eq_refl)) as [b Hb].
    destruct (IH (fun a' Ha' => Hf a' (or_intror Ha'))) as [bs [Hbs Hlen]].
    exists (b :: bs). cbn [map_result]. rewrite Hb. cbn [mbind result_bind].
    rewrite Hbs. cbn [mbind result_bind length]. split; [reflexivity | lia].
Qed.

(** [np.log2] on a power of two, on [11], on [1 / 11] as a float64, and
    at zero. *)
Example np_log2_samples :
  np_log2 (Fin 8) = Fin 3
  /\ np_log2 (Fin 1) = Fin 0
  /\ np_log2 (Fin 11) = Fin (3894973737152161 # 1125899906842624)
  /\ fl64 (1 # 11) = Fin (3275345183542179 # 36028797018963968)
  /\ np_log2 (Fin (3275345183542179 # 36028797018963968))
     = Fin (-3894973737152161 # 1125899906842624)
  /\ np_log2 (Fin 0) = NInf.
Proof. repeat split; vm_compute; reflexivity. Qed.

(** On a non-empty sample the float computation of [entropy_test] does
    not raise. *)
Lemma entropy_test_float_returns (N : Z) (samples : list Z) :
  samples <> [] ->
  exists ps : list Q,
    probabilities_float N samples = Ok ps
    /\ length ps = Z.to_nat N
    /\ entropy_test_float N samples
       = Ok (entropy_float ps, np_log2 (float_of_Z N)).
Proof.
  intros Hne.
  assert (Hlen : 0 < Z.of_nat (length samples))
    by (destruct samples; [congruence | cbn [length]; lia]).
  destruct (map_result_ok
              (fun i => py_truediv (Z.of_nat (get (Counter samples) i O))
                          (Z.of_nat (length samples))) (range N))
    as [ps [Hps Hl]].
  { intros i _. rewrite Counter_get.
    pose proof (count_occ_bound Z.eq_dec i samples) as Hc.
    destruct (py_truediv_unit (Z.of_nat (count_occ Z.eq_dec samples i))
                (Z.of_nat (length samples))) as [x [Hx _]]; [lia | lia|].
    exists x. exact Hx. }
  exists ps. split; [exact Hps|]. split.
  - rewrite Hl. unfold range. rewrite length_map, length_seq. reflexivity.
  - unfold entropy_test_float, probabilities_float. rewrite Hps. reflexivity.
Qed.

(** C8, as the code has it. On a non-empty sample with values in
    [[0, N)], [entropy_test] does not raise; the number it computes is
    the float64 evaluation of the Shannon entropy of the observed
    frequencies, zero frequencies left out, whose value in exact
    arithmetic is at most [log2 N]; on the sample [[0, 0, 0, 0]] with
    [N = 1] the computed entropy and the computed maximum are both
    [0.0]. *)
Theorem entropy_at_most_log2 (N : Z) (samples : list Z) :
  samples <> [] ->
  Forall (fun x => 0 <= x < N) samples ->
  (exists ps : list Q,
      probabilities_float N samples = Ok ps
      /\ length ps = Z.to_nat N
      /\ entropy_test_float N samples
         = Ok (entropy_float ps, np_log2 (float_of_Z N)))
  /\ entropy_test N samples = Ok (entropy N samples, max_entropy N)
  /\ entropy N samples
     = (- Rsum (map (fun p => p * (ln p / ln 2))
                  (List.filter (fun p => if Rlt_dec 0 p then true else false)
                     (map (fun i =>
                             INR (count_occ Z.eq_dec samples i)
                             / INR (length samples))
                        (range N)))))%R
  /\ max_entropy N = (ln (IZR N) / ln 2)%R
  /\ (entropy N samples <= max_entropy N)%R
  /\ entropy_test_float 1 [0; 0; 0; 0] = Ok (Fin 0, Fin 0).
Proof.
  intros Hne Hrange.
  split; [apply entropy_test_float_returns, Hne|].
  split; [|split; [|split; [|split]]].
  - unfold entropy_test.
    destruct (Z.eqb_spec (Z.of_nat (length samples)) 0) as [E|E].
    + destruct samples; [congruence | cbn in E; lia].
    + rewrite andb_false_r. reflexivity.
  - unfold entropy, probabilities, is_positive, log2.
    rewrite (map_ext _ (fun i =>
               INR (count_occ Z.eq_dec samples i) / INR (length samples))%R)
      by (intros; rewrite Counter_get; reflexivity).
    reflexivity.
  - reflexivity.
  - apply entropy_le_max; assumption.
  - vm_compute. reflexivity.
Qed.

(** A sample of six values over [[0, 4)]. *)
Lemma entropy_at_most_log2_witness :
  [2; 0; 3; 3; 0; 2] <> []
  /\ Forall (fun x => 0 <= x < 4) [2; 0; 3; 3; 0; 2]
  /\ (entropy 4 [2; 0; 3; 3; 0; 2]%Z <= max_entropy 4)%R
  /\ entropy_test_float 4 [2; 0; 3; 3; 0; 2]
     = Ok (Fin (892254565955501 # 562949953421312), Fin 2).
Proof.
  assert (Hne : [2; 0; 3; 3; 0; 2] <> []) by discriminate.
  assert (Hrange : Forall (fun x => 0 <= x < 4) [2; 0; 3; 3; 0; 2])
    by (repeat constructor; lia).
  split; [exact Hne|]. split; [exact Hrange|]. split.
  - apply (entropy_at_most_log2 4 [2; 0; 3; 3; 0; 2] Hne Hrange).
  - vm_compute. reflexivity.
Defined.

(** The flat sample [0..10] with [N = 11]: every probability is the
    float64 nearest to [1 / 11], the eleven products are added with
    rounding, and the computed entropy [3.4594316186372978] is one unit
    in the last place above the computed maximum
    [np.log2(11) = 3.4594316186372973]. *)
Lemma entropy_float_exceeds_log2 :
  [0; 1; 2; 3; 4; 5; 6; 7; 8; 9; 10] <> []
  /\ Forall (fun x => 0 <= x < 11) [0; 1; 2; 3; 4; 5; 6; 7; 8; 9; 10]
  /\ entropy_test_float 11 [0; 1; 2; 3; 4; 5; 6; 7; 8; 9; 10]
     = Ok (Fin (7789947474304323 # 2251799813685248),
           Fin (3894973737152161 # 1125899906842624))
  /\ (3894973737152161 # 1125899906842624
      < 7789947474304323 # 2251799813685248)%Q.
Proof.
  split; [discriminate|]. split; [repeat constructor; lia|].
  split; [vm_compute; reflexivity | reflexivity].
Qed.


(** * Further properties of the code *)

(** ** Generators as streams *)


Section GeneratorStreams.
Context {Rng : Type} `{RandomSource Rng}.



End GeneratorStreams.


(** The uniform generator with [N = 2 ^ 64]: the entries are valid, and
    the constructor raises. *)
Example run_test_constructor_raises :
  run_test (Some (2 ^ 64)) (Some 5) RangeUniform 1
  = (ConstructorRaised ValueError, 1).
Proof. vm_compute. reflexivity. Qed.


(** ** Rounding and clamping of [normal_rand] *)

Lemma round_half_even_between (q : Q) :
  Qfloor q <= round_half_even q <= Qfloor q + 1.
Proof.
  unfold round_half_even.
  destruct (q - inject_Z (Qfloor q) ?= 1 # 2)%Q;
    [destruct (Z.even (Qfloor q))| |]; lia.
Qed.

(** Rounding keeps the order of the draws. *)
Lemma round_half_even_monotone (v w : Q) :
  (v <= w)%Q -> round_half_even v <= round_half_even w.
Proof.
  intros Hvw.
  pose proof (Qfloor_resp_le _ _ Hvw) as Hfl.
  destruct (Z_lt_le_dec (Qfloor v) (Qfloor w)) as [Hlt|Hge].
  - pose proof (round_half_even_between v). pose proof (round_half_even_between w).
    lia.
  - assert (Hf : Qfloor v = Qfloor w) by lia.
    unfold round_half_even. rewrite Hf.
    destruct (v - inject_Z (Qfloor w) ?= 1 # 2)%Q eqn:Ev;
      destruct (w - inject_Z (Qfloor w) ?= 1 # 2)%Q eqn:Ew;
      repeat match goal with
        | E : (_ ?= _)%Q = Eq |- _ => apply Qeq_alt in E
        | E : (_ ?= _)%Q = Lt |- _ => apply Qlt_alt in E
        | E : (_ ?= _)%Q = Gt |- _ => apply Qgt_alt in E
        end;
      try destruct (Z.even (Qfloor w)); try lia; exfalso; lra.
Qed.

Lemma inject_Z_half_le (z k : Z) :
  (inject_Z z <= inject_Z k + (1 # 2))%Q -> z <= k.
Proof.
  intros Hle. assert (Hlt : (inject_Z z < inject_Z (k + 1))%Q).
  { rewrite inject_Z_plus. change (inject_Z 1) with 1%Q. lra. }
  rewrite <- Zlt_Qlt in Hlt. lia.
Qed.

Lemma inject_Z_half_ge (z k : Z) :
  (inject_Z k - (1 # 2) <= inject_Z z)%Q -> k <= z.
Proof.
  intros Hle. destruct (Z_lt_le_dec z k) as [Hlt|Hge]; [exfalso | exact Hge].
  assert (Hs : (inject_Z (z + 1) <= inject_Z k)%Q) by (rewrite <- Zle_Qle; lia).
  rewrite inject_Z_plus in Hs. change (inject_Z 1) with 1%Q in Hs. lra.
Qed.

(** For [0 < N <= 2 ^ 53 + 1] the bound [N - 1] is a float64, and the
    post-processing of [normal_rand] keeps the order of the draws, leaves
    an integer of the domain where it is, and sends every draw at or
    beyond an end of the domain to that end. *)
Theorem clip_round_shape (N : Z) :
  0 < N <= 2 ^ 53 + 1 ->
  py_float (N - 1) = Ok (inject_Z (N - 1))
  /\ (forall v w : Q,
         (v <= w)%Q ->
         clip_round (inject_Z (N - 1)) v <= clip_round (inject_Z (N - 1)) w)
  /\ (forall k : Z,
         0 <= k <= N - 1 -> clip_round (inject_Z (N - 1)) (inject_Z k) = k)
  /\ (forall v : Q, (v <= 0)%Q -> clip_round (inject_Z (N - 1)) v = 0)
  /\ (forall v : Q,
         (inject_Z (N - 1) <= v)%Q -> clip_round (inject_Z (N - 1)) v = N - 1).
Proof.
  intros HN. assert (Hh : 0 <= N - 1 < 2 ^ 63) by lia.
  split; [apply py_float_int; lia|]. split; [|split; [|split]].
  - intros v w Hvw. rewrite !clip_round_clamp by exact Hh.
    pose proof (round_half_even_monotone v w Hvw). lia.
  - intros k Hk. rewrite clip_round_clamp by exact Hh.
    rewrite (round_half_even_Z (inject_Z k) k) by reflexivity. lia.
  - intros v Hv. rewrite clip_round_clamp by exact Hh.
    pose proof (round_half_even_nearest v) as [_ Hhi].
    assert (Hz : round_half_even v <= 0)
      by (apply inject_Z_half_le; change (inject_Z 0) with 0%Q; lra).
    lia.
  - intros v Hv. rewrite clip_round_clamp by exact Hh.
    pose proof (round_half_even_nearest v) as [Hlo _].
    assert (Hz : N - 1 <= round_half_even v) by (apply inject_Z_half_ge; lra).
    lia.
Qed.

(** A domain of six values: [7 / 2] and [5 / 2] both round to an even
    neighbour, and [-4] and [9] land on the ends. *)
Lemma clip_round_shape_witness :
  0 < 6 <= 2 ^ 53 + 1
  /\ clip_round (inject_Z (6 - 1)) (5 # 2) <= clip_round (inject_Z (6 - 1)) (7 # 2)
  /\ clip_round (inject_Z (6 - 1)) (inject_Z 3) = 3
  /\ clip_round (inject_Z (6 - 1)) (-4 # 1) = 0
  /\ clip_round (inject_Z (6 - 1)) (9 # 1) = 6 - 1.
Proof.
  assert (HN : 0 < 6 <= 2 ^ 53 + 1) by lia.
  destruct (clip_round_shape 6 HN) as (_ & Hmono & Hfix & Hlow & Hhigh).
  split; [exact HN|].
  split; [apply Hmono; discriminate|]. split; [apply Hfix; lia|].
  split; [apply Hlow; discriminate | apply Hhigh; discriminate].
Defined.

(** ** The counter and the frequency tables *)

Lemma Counter_foldl_lookup (samples : list Z) (m : gmap Z nat) (k : Z) :
  foldl (fun m x => <[x := S (default O (m !! x))]> m) m samples !! k
  = match count_occ Z.eq_dec samples k with
    | O => m !! k
    | S c => Some (default O (m !! k) + S c)%nat
    end.
Proof.
  revert m. induction samples as [|x samples IH]; intros m; [reflexivity|].
  cbn [foldl count_occ]. rewrite IH. destruct (Z.eq_dec x k) as [->|Hne].
  - rewrite lookup_insert_eq.
    destruct (count_occ Z.eq_dec samples k), (m !! k); cbn; f_equal; lia.
  - rewrite lookup_insert_ne by exact Hne. reflexivity.
Qed.

(** [Counter(samples)] has a key exactly for the values that occur, and
    holds for each the number of its occurrences, which is at least one. *)
Theorem Counter_lookup (samples : list Z) (k : Z) :
  (In k samples ->
     Counter samples !! k = Some (count_occ Z.eq_dec samples k)
     /\ (1 <= count_occ Z.eq_dec samples k)%nat)
  /\ (~ In k samples ->
        Counter samples !! k = None /\ get (Counter samples) k O = O).
Proof.
  unfold get, Counter. rewrite Counter_foldl_lookup, lookup_empty. split.
  - intros Hin. apply (count_occ_In Z.eq_dec) in Hin.
    destruct (count_occ Z.eq_dec samples k); [lia|]. split; [reflexivity | lia].
  - intros Hnot. apply (count_occ_not_In Z.eq_dec) in Hnot. rewrite Hnot.
    split; reflexivity.
Qed.

Lemma Counter_lookup_witness :
  (Counter [3; 0; 5; 3; 3; 1] !! 3 = Some 3%nat)
  /\ (Counter [3; 0; 5; 3; 3; 1] !! 4 = None
      /\ get (Counter [3; 0; 5; 3; 3; 1]) 4 O = O).
Proof.
  split.
  - refine (proj1 (proj1 (Counter_lookup [3; 0; 5; 3; 3; 1] 3) _)).
    cbn. tauto.
  - apply (Counter_lookup [3; 0; 5; 3; 3; 1] 4).
    cbn. intros H. repeat destruct H as [H|H]; try discriminate H. exact H.
Defined.

Lemma sum_count_occ_cons (x : Z) (samples keys : list Z) :
  sum_list (map (fun i => count_occ Z.eq_dec (x :: samples) i) keys)
  = (sum_list (map (fun i => if Z.eq_dec x i then 1%nat else O) keys)
     + sum_list (map (fun i => count_occ Z.eq_dec samples i) keys))%nat.
Proof.
  induction keys as [|i keys IHk]; [reflexivity|].
  cbn [map sum_list].
  etransitivity; [apply f_equal2; [reflexivity | exact IHk]|].
  cbn [count_occ]. destruct (Z.eq_dec x i); unfold Datatypes.id; lia.
Qed.

(** The observed frequencies of [distribution_check] add up to the number
    of values of the sample that lie in [[0, N)]. *)
Theorem observed_sum_in_domain (N : Z) (samples : list Z) :
  sum_list (observed N samples)
  = length (List.filter (fun x => (0 <=? x) && (x <? N)) samples).
Proof.
  unfold observed.
  rewrite (map_ext _ (fun i => count_occ Z.eq_dec samples i))
    by (intros; apply Counter_get).
  induction samples as [|x samples IH].
  - cbn [count_occ List.filter length]. induction (range N); [reflexivity|].
    cbn [map sum_list]. assumption.
  - etransitivity; [apply sum_count_occ_cons|].
    etransitivity; [apply f_equal2; [reflexivity | exact IH]|].
    cbn [List.filter]. unfold range.
    destruct (Z.leb_spec 0 x) as [H0|H0]; [destruct (Z.ltb_spec x N) as [H1|H1]|];
      cbn [andb length].
    + rewrite sum_indicator_in by lia. reflexivity.
    + rewrite sum_indicator_out by lia. reflexivity.
    + rewrite sum_indicator_out by lia. reflexivity.
Qed.

Lemma freq_table_lookup (f : Z -> nat) (a n : nat) (k : Z) :
  (list_to_map (map (fun i => (i, f i)) (map Z.of_nat (seq a n)))
     : gmap Z nat) !! k
  = if (Z.of_nat a <=? k) && (k <? Z.of_nat (a + n)) then Some (f k) else None.
Proof.
  revert a. induction n as [|n IH]; intros a.
  - cbn [seq map]. rewrite list_to_map_nil, lookup_empty.
    destruct (Z.leb_spec (Z.of_nat a) k), (Z.ltb_spec k (Z.of_nat (a + 0)));
      cbn; try reflexivity; lia.
  - cbn [seq map]. rewrite list_to_map_cons.
    destruct (Z.eq_dec (Z.of_nat a) k) as [<-|Hne].
    + rewrite lookup_insert_eq.
      destruct (Z.leb_spec (Z.of_nat a) (Z.of_nat a)),
               (Z.ltb_spec (Z.of_nat a) (Z.of_nat (a + S n)));
        cbn; try reflexivity; lia.
    + rewrite lookup_insert_ne by exact Hne. rewrite IH.
      destruct (Z.leb_spec (Z.of_nat (S a)) k),
               (Z.ltb_spec k (Z.of_nat (S a + n))),
               (Z.leb_spec (Z.of_nat a) k),
               (Z.ltb_spec k (Z.of_nat (a + S n)));
        cbn; try reflexivity; lia.
Qed.

(** The dictionary plotted by [distribution_test] has the keys [0 .. N-1]
    and no other, each with the number of occurrences of the key in the
    sample, zero included. *)
Theorem freq_dict_lookup (N : Z) (samples : list Z) (k : Z) :
  freq_dict N samples !! k
  = if (0 <=? k) && (k <? N) then Some (count_occ Z.eq_dec samples k) else None.
Proof.
  unfold freq_dict, range. rewrite freq_table_lookup.
  destruct (Z.leb_spec (Z.of_nat 0) k), (Z.ltb_spec k (Z.of_nat (0 + Z.to_nat N))),
           (Z.leb_spec 0 k), (Z.ltb_spec k N);
    cbn; rewrite ?Counter_get; try reflexivity; lia.
Qed.

(** ** Inter-occurrence intervals in general *)

Lemma strictly_increasing_snoc (l : list Z) (x : Z) :
  strictly_increasing l = true ->
  List.Forall (fun y => y < x) l ->
  strictly_increasing (l ++ [x]) = true.
Proof.
  induction l as [|a [|b t] IH]; intros Hinc Hlt; [reflexivity | |].
  - inversion Hlt; subst. cbn. rewrite (proj2 (Z.ltb_lt a x)) by assumption.
    reflexivity.
  - change (strictly_increasing (a :: b :: t))
      with ((a <? b) && strictly_increasing (b :: t)) in Hinc.
    apply andb_prop in Hinc as [Hab Hrest]. inversion Hlt; subst.
    change (strictly_increasing ((a :: b :: t) ++ [x]))
      with ((a <? b) && strictly_increasing ((b :: t) ++ [x])).
    rewrite Hab, IH by assumption. reflexivity.
Qed.

Lemma np_diff_length (l : list Z) : length (np_diff l) = (length l - 1)%nat.
Proof.
  induction l as [|a [|b t] IH]; [reflexivity | reflexivity |].
  change (np_diff (a :: b :: t)) with ((b - a) :: np_diff (b :: t)).
  cbn [length] in *. lia.
Qed.

Lemma np_diff_increasing (l : list Z) (n : Z) :
  strictly_increasing l = true ->
  List.Forall (fun y => 0 <= y < n) l ->
  List.Forall (fun d => 1 <= d <= n - 1) (np_diff l).
Proof.
  induction l as [|a [|b t] IH]; intros Hinc Hb; [constructor | constructor |].
  change (strictly_increasing (a :: b :: t))
    with ((a <? b) && strictly_increasing (b :: t)) in Hinc.
  apply andb_prop in Hinc as [Hab Hrest]. apply Z.ltb_lt in Hab.
  inversion Hb as [|? ? Ha Hb']; subst. pose proof Hb' as Hb''.
  inversion Hb'' as [|? ? Hbb _]; subst.
  change (np_diff (a :: b :: t)) with ((b - a) :: np_diff (b :: t)).
  constructor; [lia | apply IH; assumption].
Qed.

Lemma entry_ok_weaken (idx : nat) (p : Z * list nat) :
  entry_ok idx p -> entry_ok (S idx) p.
Proof.
  intros (Hne & Hinc & Hlt). split; [exact Hne|]. split; [exact Hinc|].
  eapply List.Forall_impl; [|exact Hlt]. cbn beta. intros. lia.
Qed.

Lemma append_pos_entries (positions : list (Z * list nat)) (val : Z) (idx : nat) :
  List.Forall (entry_ok idx) positions ->
  List.Forall (entry_ok (S idx)) (append_pos positions val idx).
Proof.
  induction positions as [|[k pos] rest IH]; intros Hok; cbn [append_pos].
  - constructor; [|constructor]. split; [discriminate|].
    split; [reflexivity|]. constructor; [lia | constructor].
  - inversion Hok as [|? ? Hp Hrest]; subst. destruct (k =? val).
    + constructor.
      * destruct Hp as (Hne & Hinc & Hlt). unfold entry_ok.
        cbn [snd] in *. split; [|split].
        -- destruct pos; discriminate.
        -- rewrite map_app. apply strictly_increasing_snoc; [exact Hinc|].
           apply List.Forall_forall. intros y Hy. apply in_map_iff in Hy.
           destruct Hy as (i & <- & Hi).
           rewrite List.Forall_forall in Hlt. specialize (Hlt i Hi). lia.
        -- apply List.Forall_app. split.
           ++ eapply List.Forall_impl; [|exact Hlt]. cbn beta. intros. lia.
           ++ constructor; [lia | constructor].
      * eapply List.Forall_impl; [|exact Hrest]. apply entry_ok_weaken.
    + constructor; [apply entry_ok_weaken, Hp | apply IH, Hrest].
Qed.

Lemma append_pos_keys (positions : list (Z * list nat)) (val : Z) (idx : nat) :
  map fst (append_pos positions val idx)
  = map fst positions
    ++ (if in_dec Z.eq_dec val (map fst positions) then [] else [val]).
Proof.
  induction positions as [|[k pos] rest IH]; [reflexivity|].
  cbn [append_pos map fst]. destruct (Z.eqb_spec k val) as [E|E].
  - destruct (in_dec Z.eq_dec val (k :: map fst rest)) as [_|Hn].
    + cbn. rewrite app_nil_r. reflexivity.
    + exfalso. apply Hn. left. exact E.
  - cbn [map fst]. rewrite IH.
    destruct (in_dec Z.eq_dec val (map fst rest)) as [Hin|Hn];
      destruct (in_dec Z.eq_dec val (k :: map fst rest)) as [Hin'|Hn'];
      try reflexivity.
    + exfalso. apply Hn'. right. exact Hin.
    + exfalso. destruct Hin' as [Hk|Hin']; [exact (E Hk) | exact (Hn Hin')].
Qed.

Lemma append_pos_total (positions : list (Z * list nat)) (val : Z) (idx : nat) :
  length (concat (map snd (append_pos positions val idx)))
  = S (length (concat (map snd positions))).
Proof.
  induction positions as [|[k pos] rest IH]; [reflexivity|].
  cbn [append_pos]. destruct (k =? val); cbn [map snd concat].
  - rewrite !length_app. cbn [length]. lia.
  - rewrite !length_app, IH. lia.
Qed.

Lemma fill_positions_inv (samples : list Z) (positions : list (Z * list nat))
  (idx : nat) :
  List.NoDup (map fst positions) ->
  List.Forall (entry_ok idx) positions ->
  let final := fill_positions positions idx samples in
  List.NoDup (map fst final)
  /\ (forall v, In v (map fst final) <-> In v (map fst positions) \/ In v samples)
  /\ List.Forall (entry_ok (idx + length samples)) final
  /\ length (concat (map snd final))
     = (length (concat (map snd positions)) + length samples)%nat.
Proof.
  revert positions idx.
  induction samples as [|val rest IH]; intros positions idx Hnd Hok; cbn zeta.
  - cbn [fill_positions length]. rewrite !Nat.add_0_r.
    split; [exact Hnd|]. split; [intros v; cbn [In]; tauto|].
    split; [exact Hok | reflexivity].
  - cbn [fill_positions length].
    assert (Hnd' : List.NoDup (map fst (append_pos positions val idx))).
    { rewrite append_pos_keys.
      destruct (in_dec Z.eq_dec val (map fst positions)) as [Hin|Hn].
      - rewrite app_nil_r. exact Hnd.
      - apply List.NoDup_app; [exact Hnd | repeat constructor; tauto |].
        intros a Ha [<-|[]]. exact (Hn Ha). }
    destruct (IH (append_pos positions val idx) (S idx) Hnd'
                (append_pos_entries positions val idx Hok))
      as (Hn & Hkeys & Hent & Htot).
    split; [exact Hn|]. split; [|split].
    + intros v. rewrite Hkeys, append_pos_keys, in_app_iff. cbn [In].
      destruct (in_dec Z.eq_dec val (map fst positions)) as [Hin|Hnin];
        cbn [In]; split; intros Hv.
      * tauto.
      * destruct Hv as [Hv|[<-|Hv]]; tauto.
      * tauto.
      * tauto.
    + replace (idx + S (length rest))%nat with (S idx + length rest)%nat by lia.
      exact Hent.
    + rewrite Htot, append_pos_total. lia.
Qed.

Lemma intervals_of_entries (positions : list (Z * list nat)) (n : nat) :
  List.Forall (entry_ok n) positions ->
  List.Forall (fun d => 1 <= d <= Z.of_nat n - 1)
    (concat (map (fun p => np_diff (map Z.of_nat (snd p))) positions))
  /\ (length (concat (map (fun p => np_diff (map Z.of_nat (snd p))) positions))
      + length positions
      = length (concat (map snd positions)))%nat.
Proof.
  induction 1 as [|[k pos] rest (Hne & Hinc & Hlt) _ [IHr IHl]];
    [split; [constructor | reflexivity]|].
  cbn [map concat snd length] in *. split.
  - apply List.Forall_app. split; [|exact IHr].
    apply np_diff_increasing; [exact Hinc|].
    apply List.Forall_forall. intros y Hy. apply in_map_iff in Hy.
    destruct Hy as (i & <- & Hi).
    rewrite List.Forall_forall in Hlt. specialize (Hlt i Hi). lia.
  - rewrite !length_app, np_diff_length, length_map.
    destruct pos as [|i pos]; [congruence|]. cbn [length]. lia.
Qed.

Lemma build_positions_keys (samples : list Z) :
  length (build_positions samples) = length (nodup Z.eq_dec samples).
Proof.
  destruct (fill_positions_inv samples [] O (List.NoDup_nil _) (List.Forall_nil _))
    as (Hnd & Hkeys & _). fold (build_positions samples) in Hnd, Hkeys.
  rewrite <- (length_map fst). apply Nat.le_antisymm.
  - apply List.NoDup_incl_length; [exact Hnd|].
    intros v Hv. apply nodup_In. apply Hkeys in Hv. cbn [map In] in Hv. tauto.
  - apply List.NoDup_incl_length; [apply NoDup_nodup|].
    intros v Hv. apply nodup_In in Hv. apply Hkeys. right. exact Hv.
Qed.

(** The interval computation raises exactly on the empty sample, where
    [np.concatenate] has no array to join, and what it raises is
    [ValueError]. *)
Theorem intervals_raises_iff_empty (samples : list Z) (e : exn) :
  intervals samples = Raise e <-> samples = [] /\ e = ValueError.
Proof.
  unfold intervals. split.
  - destruct samples as [|x rest]; [cbn; intros [= <-]; split; reflexivity|].
    pose proof (build_positions_keys (x :: rest)) as Hlen.
    destruct (build_positions (x :: rest)) as [|p ps] eqn:Eb.
    + exfalso. cbn [length nodup] in Hlen.
      destruct (in_dec Z.eq_dec x rest) as [Hin|_]; [|discriminate Hlen].
      apply (nodup_In Z.eq_dec) in Hin.
      destruct (nodup Z.eq_dec rest); [contradiction | discriminate Hlen].
    + cbn [map np_concatenate]. discriminate.
  - intros [-> ->]. reflexivity.
Qed.

Lemma intervals_raises_iff_empty_witness :
  intervals [] = Raise ValueError /\ intervals [7; 5; 7] <> Raise ValueError.
Proof.
  split.
  - apply (intervals_raises_iff_empty [] ValueError). split; reflexivity.
  - intros Hraise.
    apply (intervals_raises_iff_empty [7; 5; 7] ValueError) in Hraise.
    destruct Hraise as [Hempty _]. discriminate Hempty.
Defined.

(** When the interval computation returns, every interval is at least
    one and smaller than the sample length, and there are as many intervals
    as there are values in the sample beyond the first occurrence of
    each. *)
Theorem intervals_shape (samples ivs : list Z) :
  intervals samples = Ok ivs ->
  List.Forall (fun d => 1 <= d <= Z.of_nat (length samples) - 1) ivs
  /\ (length ivs + length (nodup Z.eq_dec samples) = length samples)%nat.
Proof.
  unfold intervals. intros Hret.
  destruct (fill_positions_inv samples [] O (List.NoDup_nil _) (List.Forall_nil _))
    as (_ & _ & Hent & Htot). fold (build_positions samples) in Hent, Htot.
  cbn [Nat.add map concat length] in Hent, Htot.
  destruct (intervals_of_entries _ _ Hent) as [Hpos Hcount].
  rewrite <- build_positions_keys.
  assert (Hivs : ivs = concat (map (fun p => np_diff (map Z.of_nat (snd p)))
                                 (build_positions samples))).
  { destruct (map _ (build_positions samples)) as [|a l];
      [discriminate Hret|].
    cbn [np_concatenate] in Hret. injection Hret as <-. reflexivity. }
  rewrite Hivs. split; [exact Hpos | lia].
Qed.

(** The value [7] at the indices 0, 2 and 5, the value [5] at 1 and 4. *)
Lemma intervals_shape_witness :
  intervals [7; 5; 7; 1; 5; 7] = Ok [2; 3; 3]
  /\ List.Forall (fun d => 1 <= d <= Z.of_nat (length [7; 5; 7; 1; 5; 7]) - 1)
       [2; 3; 3]
  /\ (length [2; 3; 3]%Z + length (nodup Z.eq_dec [7; 5; 7; 1; 5; 7]%Z)
      = length [7; 5; 7; 1; 5; 7]%Z)%nat.
Proof.
  assert (Hret : intervals [7; 5; 7; 1; 5; 7] = Ok [2; 3; 3]) by reflexivity.
  split; [exact Hret|].
  exact (intervals_shape [7; 5; 7; 1; 5; 7] [2; 3; 3] Hret).
Defined.

(** ** Run count in general *)

(** The run count is at least one, and at most the number of first
    differences: [len(samples) - 1] for a sample of two values or more. *)
Theorem run_count_bounds (samples : list Z) :
  1 <= run_count samples <= Z.max 1 (Z.of_nat (length samples) - 1).
Proof.
  unfold run_count, np_sum_bool, trend_changes.
  pose proof (List.filter_length_le (fun b : bool => b)
                (map (fun d => negb (d =? 0))
                   (np_diff_int64 (map Z.sgn (np_diff_int64 samples)))))
    as Hb.
  rewrite length_map, np_diff_int64_length, length_map, np_diff_int64_length
    in Hb.
  lia.
Qed.

Lemma np_diff_shift (c : Z) (l : list Z) :
  np_diff (map (Z.add c) l) = np_diff l.
Proof.
  induction l as [|a [|b t] IH]; [reflexivity | reflexivity |].
  change (np_diff (map (Z.add c) (a :: b :: t)))
    with ((c + b - (c + a)) :: np_diff (map (Z.add c) (b :: t))).
  rewrite IH. change (np_diff (a :: b :: t)) with ((b - a) :: np_diff (b :: t)).
  f_equal. lia.
Qed.

Lemma np_diff_mirror (c : Z) (l : list Z) :
  np_diff (map (fun x => c - x) l) = map Z.opp (np_diff l).
Proof.
  induction l as [|a [|b t] IH]; [reflexivity | reflexivity |].
  change (np_diff (map (fun x => c - x) (a :: b :: t)))
    with ((c - b - (c - a)) :: np_diff (map (fun x => c - x) (b :: t))).
  rewrite IH. change (np_diff (a :: b :: t)) with ((b - a) :: np_diff (b :: t)).
  cbn [map]. f_equal. lia.
Qed.

Lemma sign_changes_opp (d : list Z) :
  sign_changes (map Z.sgn (map Z.opp d)) = sign_changes (map Z.sgn d).
Proof.
  induction d as [|a [|b t] IH]; [reflexivity | reflexivity |].
  change (sign_changes (map Z.sgn (map Z.opp (a :: b :: t))))
    with ((if Z.eqb (Z.sgn (- a)) (Z.sgn (- b)) then O else 1%nat)
          + sign_changes (map Z.sgn (map Z.opp (b :: t))))%nat.
  change (sign_changes (map Z.sgn (a :: b :: t)))
    with ((if Z.eqb (Z.sgn a) (Z.sgn b) then O else 1%nat)
          + sign_changes (map Z.sgn (b :: t)))%nat.
  rewrite IH. f_equal. rewrite !Z.sgn_opp.
  destruct (Z.eqb_spec (- Z.sgn a) (- Z.sgn b)), (Z.eqb_spec (Z.sgn a) (Z.sgn b));
    try reflexivity; lia.
Qed.

Lemma np_diff_snoc (l : list Z) (x y : Z) :
  np_diff ((l ++ [x]) ++ [y]) = np_diff (l ++ [x]) ++ [y - x].
Proof.
  induction l as [|a [|b t] IH]; [reflexivity | reflexivity |].
  change (np_diff (((a :: b :: t) ++ [x]) ++ [y]))
    with ((b - a) :: np_diff (((b :: t) ++ [x]) ++ [y])).
  rewrite IH. reflexivity.
Qed.

Lemma np_diff_rev (l : list Z) :
  np_diff (rev l) = map Z.opp (rev (np_diff l)).
Proof.
  induction l as [|a [|b t] IH]; [reflexivity | reflexivity |].
  change (rev (a :: b :: t)) with ((rev t ++ [b]) ++ [a]).
  rewrite np_diff_snoc. change (rev t ++ [b]) with (rev (b :: t)). rewrite IH.
  change (np_diff (a :: b :: t)) with ((b - a) :: np_diff (b :: t)).
  cbn [rev]. rewrite map_app. cbn [map]. do 2 f_equal. lia.
Qed.

Lemma sign_changes_snoc (l : list Z) (x y : Z) :
  sign_changes ((l ++ [x]) ++ [y])
  = (sign_changes (l ++ [x]) + (if Z.eqb x y then O else 1%nat))%nat.
Proof.
  induction l as [|a [|b t] IH]; [cbn; lia | cbn; lia |].
  change (sign_changes (((a :: b :: t) ++ [x]) ++ [y]))
    with ((if Z.eqb a b then O else 1%nat)
          + sign_changes (((b :: t) ++ [x]) ++ [y]))%nat.
  rewrite IH.
  change (sign_changes ((a :: b :: t) ++ [x]))
    with ((if Z.eqb a b then O else 1%nat)
          + sign_changes ((b :: t) ++ [x]))%nat.
  lia.
Qed.

Lemma sign_changes_rev (l : list Z) : sign_changes (rev l) = sign_changes l.
Proof.
  induction l as [|a [|b t] IH]; [reflexivity | reflexivity |].
  change (rev (a :: b :: t)) with ((rev t ++ [b]) ++ [a]).
  rewrite sign_changes_snoc. change (rev t ++ [b]) with (rev (b :: t)).
  rewrite IH.
  change (sign_changes (a :: b :: t))
    with ((if Z.eqb a b then O else 1%nat) + sign_changes (b :: t))%nat.
  rewrite (Z.eqb_sym b a). lia.
Qed.

(** Differences of values between [- 2 ^ 62] and [2 ^ 62] do not
    overflow. *)
Lemma no_overflow_small (samples : list Z) :
  Forall (fun x => - 2 ^ 62 <= x < 2 ^ 62) samples ->
  no_overflow samples = true.
Proof.
  unfold no_overflow.
  induction samples as [|a [|b t] IH]; intros Hr; [reflexivity | reflexivity |].
  change (np_diff (a :: b :: t)) with ((b - a) :: np_diff (b :: t)).
  inversion Hr as [|? ? Ha Hr']; subst.
  cbn [forallb]. rewrite (IH Hr'), andb_true_r.
  inversion Hr' as [|? ? Hb _]; subst. apply int64_true. lia.
Qed.

(** On samples whose values stay between [- 2 ^ 62] and [2 ^ 62], the run
    count does not change when the sample is read backwards, when every
    value is shifted by a constant, or when the sample is mirrored ([x]
    becomes [c - x]), the shifted and the mirrored values staying in that
    range too. *)
Theorem run_count_symmetries (samples : list Z) (c : Z) :
  Forall (fun x => - 2 ^ 62 <= x < 2 ^ 62) samples ->
  run_count (rev samples) = run_count samples
  /\ (Forall (fun x => - 2 ^ 62 <= x < 2 ^ 62) (map (Z.add c) samples) ->
      run_count (map (Z.add c) samples) = run_count samples)
  /\ (Forall (fun x => - 2 ^ 62 <= x < 2 ^ 62) (map (fun x => c - x) samples) ->
      run_count (map (fun x => c - x) samples) = run_count samples).
Proof.
  intros Hr.
  rewrite (run_count_refines samples (no_overflow_small samples Hr)).
  split; [|split].
  - rewrite run_count_refines
      by (apply no_overflow_small, List.Forall_rev, Hr).
    unfold run_count_spec.
    rewrite np_diff_rev, sign_changes_opp, map_rev, sign_changes_rev.
    reflexivity.
  - intros Hs. rewrite (run_count_refines _ (no_overflow_small _ Hs)).
    unfold run_count_spec. rewrite np_diff_shift. reflexivity.
  - intros Hm. rewrite (run_count_refines _ (no_overflow_small _ Hm)).
    unfold run_count_spec. rewrite np_diff_mirror, sign_changes_opp.
    reflexivity.
Qed.

(** A zig-zag of five values, shifted by [10], mirrored at [10] and read
    backwards. *)
Lemma run_count_symmetries_witness :
  Forall (fun x => - 2 ^ 62 <= x < 2 ^ 62) [3; 8; 2; 9; 4]
  /\ run_count (rev [3; 8; 2; 9; 4]) = run_count [3; 8; 2; 9; 4]
  /\ run_count (map (Z.add 10) [3; 8; 2; 9; 4]) = run_count [3; 8; 2; 9; 4]
  /\ run_count (map (fun x => 10 - x) [3; 8; 2; 9; 4])
     = run_count [3; 8; 2; 9; 4].
Proof.
  assert (Hr : Forall (fun x => - 2 ^ 62 <= x < 2 ^ 62) [3; 8; 2; 9; 4])
    by (repeat constructor; lia).
  destruct (run_count_symmetries [3; 8; 2; 9; 4] 10 Hr) as (Hrev & Hs & Hm).
  split; [exact Hr|]. split; [exact Hrev|]. split.
  - apply Hs. repeat constructor; lia.
  - apply Hm. repeat constructor; lia.
Defined.

(** ** Lag-1 autocorrelation in general *)


(** On the progression [0..5] the rounding of the square root and of the
    two divisions leaves the coefficient one unit in the last place below
    [1]: it prints as [0.9999999999999999]. *)
Example lag1_autocorr_progression :
  lag1_autocorr [0; 1; 2; 3; 4; 5]
  = Fin (9007199254740991 # 9007199254740992).
Proof. vm_compute. reflexivity. Qed.

(** ** Throughput of [performance_test] *)

(** A non-negative rational rounds to a non-negative float64 or to
    [+inf]. *)
Lemma fl64_nonneg_cases (q : Q) :
  (0 <= q)%Q ->
  (exists r : Q, fl64 q = Fin r /\ (0 <= r)%Q) \/ fl64 q = PInf.
Proof.
  intros H0.
  destruct (Qlt_le_dec q float_max_bound) as [Hlt|Hge].
  - left. apply fl64_nonneg; assumption.
  - right. unfold fl64, round64.
    assert (Hred : (Qred q == q)%Q) by apply Qred_correct.
    assert (Hbig : (0 < float_max_bound)%Q) by reflexivity.
    destruct (Qeq_bool (Qred q) 0) eqn:E0.
    + apply Qeq_bool_iff in E0. rewrite Hred in E0. rewrite E0 in Hge.
      exfalso. exact (Qlt_not_le _ _ Hbig Hge).
    + assert (E1 : Qle_bool float_max_bound (Qabs (Qred q)) = true).
      { apply Qle_bool_iff. rewrite Hred, Qabs_pos by exact H0. exact Hge. }
      rewrite E1. unfold inf_of_sign.
      rewrite (proj2 (Qle_bool_iff 0 (Qred q))) by (rewrite Hred; exact H0).
      reflexivity.
Qed.

Lemma truncate_nonneg (q : Q) : (0 <= q)%Q -> 0 <= truncate q.
Proof.
  intros Hq. unfold truncate. rewrite (proj2 (Qle_bool_iff 0 q) Hq).
  change 0 with (Qfloor (inject_Z 0)). apply Qfloor_resp_le. exact Hq.
Qed.

Section Throughput.
Context {Rng : Type} `{RandomSource Rng}.

(** With a generator in its numeric range, a positive sample size below
    the float range and a positive measured duration [d], the test does
    not raise [ZeroDivisionError]: it returns the integer part of the
    float64 quotient of the sample size by [d], which is not negative, or
    raises [OverflowError] when that quotient is infinite. *)
Theorem performance_test_rate (g : GeneratorKind) (N sample_size : Z)
  (s : Rng) (start_time end_time d : Q) :
  generator_domain g N = true -> 0 < sample_size < float_max_Z ->
  fsub (Fin end_time) (Fin start_time) = Fin d -> (0 < d)%Q ->
  exists (x : Q) (values : list Z) (s' : Rng),
    py_float sample_size = Ok x
    /\ rand_func g N sample_size s = Ok (values, s')
    /\ ((exists q : Q,
            fl64 (x / d) = Fin q
            /\ 0 <= truncate q
            /\ performance_test g N sample_size s start_time end_time
               = Ok (truncate q, s'))
        \/ (fl64 (x / d) = PInf
            /\ performance_test g N sample_size s start_time end_time
               = Raise OverflowError)).
Proof.
  intros Hdom Hs Hdur Hd.
  destruct (rand_func_valid_config g N sample_size s Hdom ltac:(lia))
    as (values & s' & Hgen & _).
  destruct (fl64_nonneg (inject_Z sample_size)) as [x [Hx Hxpos]].
  { change 0%Q with (inject_Z 0). rewrite <- Zle_Qle. lia. }
  { unfold float_max_bound. rewrite <- Zlt_Qlt. lia. }
  assert (Hpy : py_float sample_size = Ok x) by (unfold py_float; rewrite Hx; reflexivity).
  exists x, values, s'. split; [exact Hpy|]. split; [exact Hgen|].
  assert (Hd0 : Qeq_bool d 0 = false).
  { destruct (Qeq_bool d 0) eqn:E; [|reflexivity].
    apply Qeq_bool_iff in E. rewrite E in Hd. discriminate Hd. }
  assert (Hrun : performance_test g N sample_size s start_time end_time
                 = (speed ← py_int (fl64 (x / d)); Ok (speed, s'))).
  { unfold performance_test. rewrite Hgen. cbn [mbind result_bind].
    rewrite Hdur, Hpy. cbn [mbind result_bind py_float_div fdiv].
    rewrite Hd0. reflexivity. }
  destruct (fl64_nonneg_cases (x / d)) as [[q [Hq Hqpos]] | Hinf].
  - apply Qle_shift_div_l; [exact Hd|]. rewrite Qmult_0_l. exact Hxpos.
  - left. exists q. split; [exact Hq|]. split; [apply truncate_nonneg, Hqpos|].
    rewrite Hrun, Hq. reflexivity.
  - right. split; [exact Hinf|]. rewrite Hrun, Hinf. reflexivity.
Qed.

End Throughput.

(** A hundred samples in a quarter of a second. *)
Lemma performance_test_rate_witness :
  generator_domain RangeUniform 6 = true /\ 0 < 100 < float_max_Z
  /\ fsub (Fin (69 # 4)) (Fin (17 # 1)) = Fin (1 # 4) /\ (0 < 1 # 4)%Q
  /\ exists (x : Q) (values : list Z) (s' : Z),
       py_float 100 = Ok x
       /\ rand_func RangeUniform 6 100 1 = Ok (values, s')
       /\ ((exists q : Q,
               fl64 (x / (1 # 4)) = Fin q
               /\ 0 <= truncate q
               /\ performance_test RangeUniform 6 100 1 (17 # 1) (69 # 4)
                  = Ok (truncate q, s'))
           \/ (fl64 (x / (1 # 4)) = PInf
               /\ performance_test RangeUniform 6 100 1 (17 # 1) (69 # 4)
                  = Raise OverflowError)).
Proof.
  assert (Hs : 0 < 100 < float_max_Z) by (split; reflexivity).
  assert (Hdur : fsub (Fin (69 # 4)) (Fin (17 # 1)) = Fin (1 # 4))
    by (vm_compute; reflexivity).
  assert (Hd : (0 < 1 # 4)%Q) by reflexivity.
  split; [reflexivity|]. split; [exact Hs|]. split; [exact Hdur|].
  split; [exact Hd|].
  exact (performance_test_rate RangeUniform 6 100 1 (17 # 1) (69 # 4) (1 # 4)
           eq_refl Hs Hdur Hd).
Defined.

(** ** Entropy in general *)

Local Open Scope R_scope.

Lemma count_occ_all (l : list Z) (v : Z) :
  (forall a, In a l -> a = v) -> count_occ Z.eq_dec l v = length l.
Proof.
  induction l as [|a l IH]; intros Hall; [reflexivity|].
  cbn [count_occ length]. rewrite (Hall a (or_introl eq_refl)).
  destruct (Z.eq_dec v v) as [_|Hn]; [|contradiction].
  rewrite IH; [reflexivity|]. intros b Hb. apply Hall. right. exact Hb.
Qed.

Lemma count_occ_two (l : list Z) (a b : Z) :
  a <> b ->
  (count_occ Z.eq_dec l a + count_occ Z.eq_dec l b <= length l)%nat.
Proof.
  intros Hab. induction l as [|c l IH]; [reflexivity|].
  cbn [count_occ length].
  destruct (Z.eq_dec c a), (Z.eq_dec c b); lia.
Qed.

Lemma Rsum_nonpos_zero (ts : list R) :
  List.Forall (fun t => t <= 0) ts ->
  Rsum ts <= 0 /\ (Rsum ts = 0 -> List.Forall (fun t => t = 0) ts).
Proof.
  induction 1 as [|t ts Ht _ [IHle IHz]]; [split; [cbn; lra | constructor]|].
  change (Rsum (t :: ts)) with (t + Rsum ts). split; [lra|].
  intros Hz. constructor; [lra | apply IHz; lra].
Qed.

(** A positive relative frequency contributes a term that is not
    positive, and zero only for the frequency [1]. *)
Lemma entropy_term_sign (p : R) :
  0 < p <= 1 -> p * log2 p <= 0 /\ (p * log2 p = 0 -> p = 1).
Proof.
  intros [Hp Hp1]. pose proof ln_2_pos as H2. unfold log2.
  assert (Hln : ln p <= 0).
  { destruct Hp1 as [Hlt | ->]; [|rewrite ln_1; lra].
    left. rewrite <- ln_1. apply ln_increasing; assumption. }
  assert (Hq : ln p / ln 2 <= 0).
  { unfold Rdiv. pose proof (Rinv_0_lt_compat _ H2). nra. }
  split; [nra|]. intros Hz.
  assert (Hl0 : ln p = 0).
  { assert (Hq0 : ln p / ln 2 = 0) by nra.
    unfold Rdiv in Hq0. apply Rmult_integral in Hq0 as [E|E]; [exact E|].
    pose proof (Rinv_0_lt_compat _ H2). lra. }
  apply ln_inv; [exact Hp | lra | rewrite ln_1; exact Hl0].
Qed.

Lemma probabilities_count (N : Z) (samples : list Z) :
  probabilities N samples
  = map (fun i => INR (count_occ Z.eq_dec samples i) / INR (length samples))
      (range N).
Proof.
  unfold probabilities. apply map_ext. intros i. rewrite Counter_get.
  reflexivity.
Qed.

Lemma positive_probability (N : Z) (samples : list Z) (p : R) :
  samples <> [] ->
  In p (List.filter is_positive (probabilities N samples)) ->
  0 < p <= 1
  /\ exists i, p = INR (count_occ Z.eq_dec samples i) / INR (length samples).
Proof.
  intros Hne Hp. apply filter_In in Hp as [Hin Hpos].
  unfold is_positive in Hpos. destruct (Rlt_dec 0 p) as [Hp|]; [|discriminate].
  rewrite probabilities_count in Hin. apply in_map_iff in Hin.
  destruct Hin as (i & <- & _).
  assert (Hlen : 0 < INR (length samples)).
  { apply lt_0_INR. destruct samples; [congruence | cbn; lia]. }
  split; [|exists i; reflexivity]. split; [exact Hp|].
  apply Rmult_le_reg_r with (INR (length samples)); [exact Hlen|].
  unfold Rdiv. rewrite Rmult_assoc, Rinv_l, Rmult_1_r, Rmult_1_l by lra.
  apply le_INR, count_occ_bound.
Qed.

(** The entropy of a non-empty sample with values in [[0, N)] is not
    negative, and it is zero exactly when all values of the sample are
    equal. *)
Theorem entropy_nonneg_zero_iff (N : Z) (samples : list Z) :
  samples <> [] ->
  Forall (fun x => (0 <= x < N)%Z) samples ->
  0 <= entropy N samples
  /\ (entropy N samples = 0
      <-> forall a b, In a samples -> In b samples -> a = b).
Proof.
  intros Hne Hrange.
  assert (Hlen : 0 < INR (length samples)).
  { apply lt_0_INR. destruct samples; [congruence | cbn; lia]. }
  assert (Hterms : List.Forall (fun t => t <= 0)
            (map (fun p => p * log2 p)
               (List.filter is_positive (probabilities N samples)))).
  { apply List.Forall_forall. intros t Ht. apply in_map_iff in Ht.
    destruct Ht as (p & <- & Hp).
    apply (entropy_term_sign p), (positive_probability N samples p Hne Hp). }
  destruct (Rsum_nonpos_zero _ Hterms) as [Hle Hzero].
  unfold entropy. split; [lra|]. split.
  - intros Hz.
    assert (Hfull : forall a, In a samples ->
              count_occ Z.eq_dec samples a = length samples).
    { intros a Ha. rewrite List.Forall_forall in Hrange.
      pose proof (Hrange a Ha) as Har.
      set (p := INR (count_occ Z.eq_dec samples a) / INR (length samples)).
      assert (Hpos : 0 < p).
      { unfold p. apply Rdiv_lt_0_compat; [|exact Hlen].
        apply lt_0_INR. apply (count_occ_In Z.eq_dec). exact Ha. }
      assert (Hin : In p (List.filter is_positive (probabilities N samples))).
      { apply filter_In. split.
        - rewrite probabilities_count. apply in_map_iff. exists a.
          split; [reflexivity|]. unfold range. apply in_map_iff.
          exists (Z.to_nat a). split; [lia|]. apply in_seq. lia.
        - unfold is_positive. destruct (Rlt_dec 0 p); [reflexivity | contradiction]. }
      assert (Ht : p * log2 p = 0).
      { assert (Hs : Rsum (map (fun p => p * log2 p)
                     (List.filter is_positive (probabilities N samples))) = 0)
          by lra.
        specialize (Hzero Hs). rewrite List.Forall_forall in Hzero.
        apply Hzero. apply in_map_iff. exists p. split; [reflexivity | exact Hin]. }
      destruct (positive_probability N samples p Hne Hin) as [Hp01 _].
      apply (entropy_term_sign p Hp01) in Ht. unfold p in Ht.
      apply INR_eq. apply (Rmult_eq_reg_r (/ INR (length samples))).
      - rewrite Rinv_r by lra. exact Ht.
      - apply Rinv_neq_0_compat. lra. }
    intros a b Ha Hb. destruct (Z.eq_dec a b) as [E|E]; [exact E|].
    pose proof (count_occ_two samples a b E) as Htwo.
    rewrite (Hfull a Ha), (Hfull b Hb) in Htwo.
    assert (Hn : (0 < length samples)%nat)
      by (destruct samples; [congruence | cbn; lia]).
    lia.
  - intros Heq.
    assert (Hall : List.Forall (fun t => t = 0)
              (map (fun p => p * log2 p)
                 (List.filter is_positive (probabilities N samples)))).
    { apply List.Forall_forall. intros t Ht. apply in_map_iff in Ht.
      destruct Ht as (p & <- & Hp).
      destruct (positive_probability N samples p Hne Hp) as [[Hpos _] [i ->]].
      destruct (in_dec Z.eq_dec i samples) as [Hi|Hi].
      + rewrite (count_occ_all samples i)
          by (intros a Ha; apply Heq; assumption).
        unfold Rdiv. rewrite Rinv_r by lra. unfold log2. rewrite ln_1.
        unfold Rdiv. ring.
      + apply (count_occ_not_In Z.eq_dec) in Hi. rewrite Hi in Hpos.
        cbn [INR] in Hpos. unfold Rdiv in Hpos. rewrite Rmult_0_l in Hpos. lra. }
    assert (Hs : Rsum (map (fun p => p * log2 p)
                  (List.filter is_positive (probabilities N samples))) = 0).
    { clear -Hall. induction Hall as [|t ts Ht _ IH]; [reflexivity|].
      change (Rsum (t :: ts)) with (t + Rsum ts). lra. }
    rewrite Hs. ring.
Qed.

Lemma entropy_nonneg_zero_iff_witness :
  0 <= entropy 4 [2; 0; 3; 3; 0; 2]%Z /\ entropy 6 [5; 5; 5]%Z = 0.
Proof.
  split.
  - apply (entropy_nonneg_zero_iff 4 [2; 0; 3; 3; 0; 2]%Z); [discriminate|].
    repeat constructor; lia.
  - apply (entropy_nonneg_zero_iff 6 [5; 5; 5]%Z); [discriminate | |].
    + repeat constructor; lia.
    + cbn [In]. intros a b Ha Hb.
      repeat destruct Ha as [Ha|Ha]; repeat destruct Hb as [Hb|Hb];
        try contradiction; congruence.
Defined.
